(** * dimidiumx: orbit geometry, picking and camera transitions

    A shallow embedding of the 3D visualisation core of the dimidiumx client
    (components/OrbitalPaths.tsx, StarRenderer.tsx, SolarSystemRenderer.tsx
    and SystemNavigator.tsx).

    Three number models are used, each where it fits the code:
    - the geometry (ellipse points, radii) needs [cos], [sin] and [sqrt] and
      inequalities for all inputs, so JavaScript numbers are idealised there
      as real numbers extended with [NaN] (module [JSReal]);
    - whether the curve of OrbitalPaths is finite depends on overflow and
      underflow, so for that question numbers are doubles with infinities
      and [NaN], every operation rounded by a rounding function of which
      only the order and the doubles it keeps are used (module [JSDouble]);
    - the camera transitions only add, subtract, multiply and compare, so
      they are modelled on IEEE binary64 itself, with Rocq's primitive
      floats, which is what a JavaScript [number] is. *)

From Stdlib Require Import String Bool ZArith Reals Lra Lia List.
From Stdlib Require Floats.
Import ListNotations.

(** ** Idealised JavaScript numbers *)

Module JSReal.

Local Open Scope R_scope.

(** A computed JavaScript number: a real, or [NaN]. Overflow to
    [Infinity] is not modelled here; [JSDouble] below has it. *)
Inductive number : Type :=
| Fin (r : R)
| NaN.

Definition nadd (p q : number) : number :=
  match p, q with
  | Fin a, Fin b => Fin (a + b)
  | _, _ => NaN
  end.

Definition nsub (p q : number) : number :=
  match p, q with
  | Fin a, Fin b => Fin (a - b)
  | _, _ => NaN
  end.

Definition nmul (p q : number) : number :=
  match p, q with
  | Fin a, Fin b => Fin (a * b)
  | _, _ => NaN
  end.

Definition finite (p : number) : Prop :=
  match p with
  | Fin _ => True
  | NaN => False
  end.

(** [Math.sqrt]: [NaN] below zero. *)
Definition Math_sqrt (x : R) : number :=
  if Rlt_dec x 0 then NaN else Fin (sqrt x).

Definition Rleb (a b : R) : bool := if Rle_dec a b then true else false.
Definition Rltb (a b : R) : bool := if Rlt_dec a b then true else false.

(** An optional numeric field of a record. [None] stands for [undefined]
    and for [NaN]: both are falsy, which is all the code asks of them. *)
Definition field := option R.

(** [!x] on an optional number: [undefined], [NaN] and [0] are falsy. *)
Definition js_not (x : field) : bool :=
  match x with
  | None => true
  | Some r => if Req_dec_T r 0 then true else false
  end.

(** [x || d] on an optional number. *)
Definition js_or (x : field) (d : R) : R :=
  match x with
  | None => d
  | Some r => if Req_dec_T r 0 then d else r
  end.

(** [x <= 0] on a field already known to be truthy. *)
Definition js_le0 (x : field) : bool :=
  match x with
  | None => false
  | Some r => Rleb r 0
  end.

(** A semi-major axis that is missing, zero or negative, and one that is
    positive. *)
Definition bad_axis (x : field) : Prop :=
  x = None \/ exists a, x = Some a /\ a <= 0.

Definition good_axis (x : field) : Prop :=
  exists a, x = Some a /\ 0 < a.

(** [Array.prototype.forEach] with the index, collecting what each call
    adds to the scene. *)
Fixpoint forEach_from {A B : Type} (f : A -> nat -> list B) (i : nat)
  (l : list A) : list B :=
  match l with
  | [] => []
  | x :: t => f x i ++ forEach_from f (S i) t
  end.

Definition forEach {A B : Type} (f : A -> nat -> list B) (l : list A) : list B :=
  forEach_from f 0 l.

Record Vector3 : Type := mkVector3 { vx : number; vy : number; vz : number }.

Definition finite3 (p : Vector3) : Prop :=
  finite (vx p) /\ finite (vy p) /\ finite (vz p).

End JSReal.

(** ** components/OrbitalPaths.tsx *)

Module OrbitalPaths.

Import JSReal.
Local Open Scope R_scope.

Record OrbitData : Type := mkOrbitData {
  plname : option string;
  pl_orbsmax : field;
  pl_orbeccen : field;
  pl_orbincl : field;
  pl_orblper : field
}.

(** [if (!orbit.pl_orbsmax || orbit.pl_orbsmax <= 0) return;] *)
Definition skipped (orbit : OrbitData) : bool :=
  js_not (pl_orbsmax orbit) || js_le0 (pl_orbsmax orbit).

(** [const a = orbit.pl_orbsmax * 3 + starRadius;] *)
Definition scene_a (orbit : OrbitData) (starRadius : R) : R :=
  js_or (pl_orbsmax orbit) 0 * 3 + starRadius.

(** [const ecc = Math.min(orbit.pl_orbeccen || 0, 0.95);] *)
Definition ecc (orbit : OrbitData) : R :=
  Rmin (js_or (pl_orbeccen orbit) 0) 0.95.

(** [const b = a * Math.sqrt(1 - ecc * ecc);] *)
Definition scene_b (orbit : OrbitData) (starRadius : R) : number :=
  nmul (Fin (scene_a orbit starRadius))
       (Math_sqrt (1 - ecc orbit * ecc orbit)).

Definition inclination (orbit : OrbitData) : R :=
  js_or (pl_orbincl orbit) 0 * (PI / 180).

Definition argPeriastron (orbit : OrbitData) : R :=
  js_or (pl_orblper orbit) 0 * (PI / 180).

(** [const theta = (i / 180) * 2 * Math.PI;] *)
Definition theta (i : nat) : R := INR i / 180 * 2 * PI.

(** The in-plane point of the loop body: [x = a * cos(theta)],
    [y = b * sin(theta)]. *)
Definition planar (a : R) (b : number) (th : R) : number * number :=
  (Fin (a * cos th), nmul b (Fin (sin th))).

(** The loop body from the in-plane point on: rotation by the argument of
    periastron about Z, then by the inclination about X. *)
Definition rotate (xy : number * number) (argP incl : R) : Vector3 :=
  let '(x, y) := xy in
  let px := nsub (nmul x (Fin (cos argP))) (nmul y (Fin (sin argP))) in
  let py := nadd (nmul x (Fin (sin argP))) (nmul y (Fin (cos argP))) in
  let pz := Fin 0 in
  let inc_py := nsub (nmul py (Fin (cos incl))) (nmul pz (Fin (sin incl))) in
  let inc_pz := nadd (nmul py (Fin (sin incl))) (nmul pz (Fin (cos incl))) in
  mkVector3 px inc_py inc_pz.

Definition orbit_point (orbit : OrbitData) (starRadius : R) (th : R) : Vector3 :=
  rotate (planar (scene_a orbit starRadius) (scene_b orbit starRadius) th)
         (argPeriastron orbit) (inclination orbit).

(** [for (let i = 0; i <= 180; i++) { ... points.push(...) }] *)
Definition orbit_points (orbit : OrbitData) (starRadius : R) : list Vector3 :=
  map (fun i => orbit_point orbit starRadius (theta i)) (seq 0 181).

(** A [THREE.Line] added to the scene: its points and its colour,
    [0x44bbff + (index * 9999) % 0xffffff]. *)
Record Line : Type := mkLine { points : list Vector3; color : Z }.

Definition line_color (index : nat) : Z :=
  (4504575 + (Z.of_nat index * 9999) mod 16777215)%Z.

Definition draw_orbit (orbit : OrbitData) (index : nat) (starRadius : R) : list Line :=
  if skipped orbit then []
  else [mkLine (orbit_points orbit starRadius) (line_color index)].

(** [orbits.forEach((orbit, index) => { ... scene.add(ellipse); })] *)
Definition draw (orbits : list OrbitData) (starRadius : R) : list Line :=
  forEach (fun orbit index => draw_orbit orbit index starRadius) orbits.

(** The spec's [ellipsePoint]: the radial formula about a focus,
    [r = a(1-e^2)/(1+e cos theta)], [x = r cos theta], [y = r sin theta]. *)
Definition spec_ellipsePoint (a e th : R) : R * R :=
  let r := a * (1 - e * e) / (1 + e * cos th) in
  (r * cos th, r * sin th).

(** The same as a pair of numbers, to compare with [planar]. *)
Definition spec_point (a e th : R) : number * number :=
  let '(x, y) := spec_ellipsePoint a e th in (Fin x, Fin y).


End OrbitalPaths.

(** ** components/StarRenderer.tsx: building the scene *)

Module StarScene.

Import JSReal.
Local Open Scope R_scope.

(** [PlanetRecord] of lib/parseExoplanetData, with the fields that
    SystemNavigator.tsx fills in. *)
Record PlanetRecord : Type := mkPlanetRecord {
  pl_name : string;
  hostname : string;
  pl_orbsmax : field;
  pl_orbeccen : field;
  pl_orbincl : field;
  pl_orblper : field;
  pl_rade : field;
  pl_bmasse : field
}.

(** The argument object of [generate3DOrbit] and [getPeriapsisPosition]. *)
Record OrbitParams : Type := mkOrbitParams {
  op_orbsmax : R;
  op_orbeccen : R;
  op_orbincl : field;
  op_orblper : field
}.

Definition EARTH_RADIUS_AU : R := 0.0000426.
Definition AU_TO_SCENE_UNITS : R := 100.
Definition SYSTEM_SCALE : R := 0.5.
Definition MIN_PLANET_SIZE : R := 0.5.

(** What the loop adds to the scene. *)
Record PlanetMesh : Type := mkPlanetMesh {
  mesh_radius : R;
  mesh_position : Vector3;
  mesh_name : string;
  mesh_color : nat
}.

Inductive SceneObject : Type :=
| OrbitLine (pts : list Vector3)
| Planet (m : PlanetMesh).

Definition scale (c : number) : number :=
  nmul (nmul c (Fin AU_TO_SCENE_UNITS)) (Fin SYSTEM_SCALE).

(** [(p.x * s, p.z * s, p.y * s)]: Y and Z are swapped on the way to the
    scene. *)
Definition to_scene (p : Vector3) : Vector3 :=
  mkVector3 (scale (vx p)) (scale (vz p)) (scale (vy p)).

(** [planet.pl_name || 'Planet'] *)
Definition display_name (planet : PlanetRecord) : string :=
  if String.eqb (pl_name planet) "" then "Planet"%string else pl_name planet.

(** [planetRadius_scene], with the floor [MIN_PLANET_SIZE]. *)
Definition planetRadius_scene (planet : PlanetRecord) : R :=
  let planetRadius_earthRadii := js_or (pl_rade planet) 1 in
  let planetRadius_AU := planetRadius_earthRadii * EARTH_RADIUS_AU in
  let r := planetRadius_AU * AU_TO_SCENE_UNITS * SYSTEM_SCALE in
  if Rltb r MIN_PLANET_SIZE then MIN_PLANET_SIZE else r.

(** [if (!planet.pl_orbsmax || planet.pl_orbsmax <= 0) return;] *)
Definition skipped (planet : PlanetRecord) : bool :=
  js_not (pl_orbsmax planet) || js_le0 (pl_orbsmax planet).

Section Build.

(** lib/orbitalMechanics is not part of the sources at hand; its two
    functions are parameters of the scene construction. *)
Variable generate3DOrbit : OrbitParams -> list Vector3.
Variable getPeriapsisPosition : OrbitParams -> Vector3.

Definition orbit_params (planet : PlanetRecord) : OrbitParams :=
  mkOrbitParams (js_or (pl_orbsmax planet) 0)
                (js_or (pl_orbeccen planet) 0)
                (pl_orbincl planet) (pl_orblper planet).

(** The body of [planets.forEach((planet, idx) => { ... })]: the orbit line
    and the planet mesh it adds to the scene. *)
Definition add_planet (planet : PlanetRecord) (idx : nat) : list SceneObject :=
  if skipped planet then []
  else
    let orbit3D := generate3DOrbit (orbit_params planet) in
    let orbitPoints := map to_scene orbit3D in
    let periapsisPos := getPeriapsisPosition (orbit_params planet) in
    [ OrbitLine orbitPoints;
      Planet (mkPlanetMesh (planetRadius_scene planet)
                           (to_scene periapsisPos)
                           (display_name planet)
                           (idx mod 5)) ].

(** What the loop adds for a record it does not skip. *)
Definition planet_objects (planet : PlanetRecord) (idx : nat) : list SceneObject :=
  [ OrbitLine (map to_scene (generate3DOrbit (orbit_params planet)));
    Planet (mkPlanetMesh (planetRadius_scene planet)
                         (to_scene (getPeriapsisPosition (orbit_params planet)))
                         (display_name planet)
                         (idx mod 5)) ].

Definition build (planets : list PlanetRecord) : list SceneObject :=
  forEach add_planet planets.

(** [planetMeshes]: the meshes pushed by the loop, which are the objects
    that [onClick] and the hover test hand to the raycaster. *)
Definition planetMeshes (planets : list PlanetRecord) : list PlanetMesh :=
  flat_map (fun o => match o with Planet m => [m] | OrbitLine _ => [] end)
           (build planets).

Definition orbitLines (planets : list PlanetRecord) : list (list Vector3) :=
  flat_map (fun o => match o with OrbitLine l => [l] | Planet _ => [] end)
           (build planets).

End Build.

End StarScene.

(** ** components/SolarSystemRenderer.tsx: body sizes *)

Module SolarSizes.

Import JSReal.
Local Open Scope R_scope.
Local Open Scope string_scope.

(** [realRadii], in kilometres. *)
Definition realRadii (name : string) : field :=
  if String.eqb name "Sun" then Some 696000
  else if String.eqb name "Mercury" then Some 2440
  else if String.eqb name "Venus" then Some 6052
  else if String.eqb name "Earth" then Some 6371
  else if String.eqb name "Mars" then Some 3390
  else if String.eqb name "Jupiter" then Some 69911
  else if String.eqb name "Saturn" then Some 58232
  else if String.eqb name "Uranus" then Some 25362
  else if String.eqb name "Neptune" then Some 24622
  else None.

Definition SUN_DISPLAY_RADIUS : R := 10.

(** [const sunRealRadius = realRadii.Sun;] *)
Definition sunRealRadius : R := 696000.

(** [displayRadius] of the body named [name]. *)
Definition displayRadius (name : string) : R :=
  let planetRealRadius := js_or (realRadii name) 6371 in
  let radiusRatio := planetRealRadius / sunRealRadius in
  Rmax 0.15 (radiusRatio * SUN_DISPLAY_RADIUS).

(** [const hitboxRadius = Math.max(displayRadius * 3, 2.5);] *)
Definition hitboxRadius (displayRadius : R) : R :=
  Rmax (displayRadius * 3) 2.5.






End SolarSizes.

(** ** IEEE binary64 vectors, as THREE.Vector3 holds them *)

Module JSFloat.

Import Floats.
Local Open Scope float_scope.
Set Warnings "-inexact-float".

Record Vec3 : Type := mkVec3 { x : float; y : float; z : float }.

(** [Vector3.lerpVectors(v1, v2, alpha)]: per component
    [v1 + (v2 - v1) * alpha]. *)
Definition lerpVectors (v1 v2 : Vec3) (alpha : float) : Vec3 :=
  mkVec3 (x v1 + (x v2 - x v1) * alpha)
         (y v1 + (y v2 - y v1) * alpha)
         (z v1 + (z v2 - z v1) * alpha).

(** [Math.max] of two numbers: [NaN] if either is, else the larger (of two
    zeros of opposite sign JavaScript returns [+0]; the code never takes the
    maximum of two zeros). *)
Definition Math_max (a b : float) : float :=
  if is_nan a || is_nan b then nan
  else if a <? b then b else a.

(** The result of [raycaster.intersectObjects(objs)]: the intersections with
    the objects of the list, nearest first. *)
Record Intersection (A : Type) : Type := mkIntersection {
  distance : float;
  object : A
}.
Arguments mkIntersection {A} _ _.
Arguments distance {A} _.
Arguments object {A} _.

(** Nearest first: every later intersection is at least as far. *)
Fixpoint ascending {A : Type} (l : list (Intersection A)) : Prop :=
  match l with
  | [] => True
  | i :: rest =>
      Forall (fun j => (distance i <=? distance j) = true) rest /\ ascending rest
  end.

End JSFloat.

(** ** components/SolarSystemRenderer.tsx and SystemNavigator.tsx:
       picking and camera transitions *)

Module SolarSystemRenderer.

Import Floats JSFloat.
Local Open Scope float_scope.
Set Warnings "-inexact-float".

(** [ExoplanetSystem] of lib/exoplanetSystemData: only its identity is
    used here. *)
Record ExoplanetSystem : Type := mkSystem { hostname : string }.

(** The planet meshes, their invisible hit spheres, the orbit lines and the
    system markers, with the [userData] the handlers read. A planet's
    position is its world position at the time of the event. *)
Record PlanetObj : Type := mkPlanetObj {
  planet_name : string;
  planet_radius : float;
  planet_position : Vec3
}.

Record HitboxObj : Type := mkHitboxObj {
  hitbox_name : string;
  hitbox_radius : float;
  parentPlanet : PlanetObj
}.

Record OrbitObj : Type := mkOrbitObj { planetName : string }.

Record MarkerObj : Type := mkMarkerObj {
  systemIndex : nat;
  marker_position : Vec3
}.

(** What the raycaster returns for the pointer of one event, for each of
    the four lists the handlers test. *)
Record Hits : Type := mkHits {
  hitboxIntersects : list (Intersection HitboxObj);
  planetIntersects : list (Intersection PlanetObj);
  orbitIntersects : list (Intersection OrbitObj);
  systemIntersects : list (Intersection MarkerObj)
}.

Definition no_hits : Hits := mkHits [] [] [] [].

Inductive Cursor : Type := pointer | default.

Inductive View : Type := solar | exoplanet.

(** The three frame callbacks: [animateCamera] of [focusPlanet],
    [animateCamera] of [handleBackToSystem] (the same steps, but it logs
    nothing when it ends) and [animateTransition] of [onClick]. *)
Inductive AnimKind : Type :=
| AnimateCamera
| AnimateTransition (targetSystem : ExoplanetSystem)
| AnimateBack.

(** A callback closure: the captured poses and its [progress] variable. *)
Record Anim : Type := mkAnim {
  kind : AnimKind;
  startPos : Vec3;
  newCameraPos : Vec3;
  startTarget : Vec3;
  endTarget : Vec3;
  progress : float
}.

(** The [console.log] messages that mark the end of a transition or a
    click on nothing; the other messages are left out. *)
Inductive LogMsg : Type :=
| CameraAnimationComplete
| TransitionCompleteSwitchingView
| NoObjectClicked.

Record State : Type := mkState {
  (* SystemNavigator *)
  currentView : View;
  selectedSystem : option ExoplanetSystem;
  (* the scene *)
  systemMarkers : list MarkerObj;
  systemData : list ExoplanetSystem;
  (* camera and controls *)
  camera_position : Vec3;
  controls_target : Vec3;
  (* requestAnimationFrame: callbacks waiting for the next frame *)
  pending : list (nat * Anim);
  next_handle : nat;
  animationFrameRef : option nat;
  (* React state *)
  hoveredSystem : option ExoplanetSystem;
  hoveredOrbit : option string;
  focusedPlanet : option string;
  isTransitioning : bool;
  cursor : Cursor;
  console : list LogMsg
}.

Definition set_pose (pos tgt : Vec3) (s : State) : State :=
  mkState (currentView s) (selectedSystem s) (systemMarkers s) (systemData s)
          pos tgt (pending s) (next_handle s) (animationFrameRef s)
          (hoveredSystem s) (hoveredOrbit s) (focusedPlanet s)
          (isTransitioning s) (cursor s) (console s).

Definition set_frames (p : list (nat * Anim)) (n : nat) (r : option nat)
  (s : State) : State :=
  mkState (currentView s) (selectedSystem s) (systemMarkers s) (systemData s)
          (camera_position s) (controls_target s) p n r
          (hoveredSystem s) (hoveredOrbit s) (focusedPlanet s)
          (isTransitioning s) (cursor s) (console s).

Definition set_hover (sys : option ExoplanetSystem) (orb : option string)
  (c : Cursor) (s : State) : State :=
  mkState (currentView s) (selectedSystem s) (systemMarkers s) (systemData s)
          (camera_position s) (controls_target s)
          (pending s) (next_handle s) (animationFrameRef s)
          sys orb (focusedPlanet s) (isTransitioning s) c (console s).

Definition setFocusedPlanet (f : option string) (s : State) : State :=
  mkState (currentView s) (selectedSystem s) (systemMarkers s) (systemData s)
          (camera_position s) (controls_target s)
          (pending s) (next_handle s) (animationFrameRef s)
          (hoveredSystem s) (hoveredOrbit s) f
          (isTransitioning s) (cursor s) (console s).

Definition setIsTransitioning (b : bool) (s : State) : State :=
  mkState (currentView s) (selectedSystem s) (systemMarkers s) (systemData s)
          (camera_position s) (controls_target s)
          (pending s) (next_handle s) (animationFrameRef s)
          (hoveredSystem s) (hoveredOrbit s) (focusedPlanet s)
          b (cursor s) (console s).

Definition console_log (m : LogMsg) (s : State) : State :=
  mkState (currentView s) (selectedSystem s) (systemMarkers s) (systemData s)
          (camera_position s) (controls_target s)
          (pending s) (next_handle s) (animationFrameRef s)
          (hoveredSystem s) (hoveredOrbit s) (focusedPlanet s)
          (isTransitioning s) (cursor s) (m :: console s).

(** SystemNavigator's [handleSystemClick], passed down as [onSystemClick]:
    [setSelectedSystem(system); setCurrentView('exoplanet')]. *)
Definition handleSystemClick (system : ExoplanetSystem) (s : State) : State :=
  mkState exoplanet (Some system) (systemMarkers s) (systemData s)
          (camera_position s) (controls_target s)
          (pending s) (next_handle s) (animationFrameRef s)
          (hoveredSystem s) (hoveredOrbit s) (focusedPlanet s)
          (isTransitioning s) (cursor s) (console s).

(** [animationFrameRef.current = requestAnimationFrame(cb)] *)
Definition requestAnimationFrame_ref (cb : Anim) (s : State) : State :=
  set_frames (pending s ++ [(next_handle s, cb)]) (S (next_handle s))
             (Some (next_handle s)) s.

(** [if (animationFrameRef.current !== null)
       cancelAnimationFrame(animationFrameRef.current);] *)
Definition cancel_existing (s : State) : State :=
  match animationFrameRef s with
  | Some h =>
      set_frames (filter (fun e => negb (Nat.eqb (fst e) h)) (pending s))
                 (next_handle s) (animationFrameRef s) s
  | None => s
  end.

Definition with_progress (a : Anim) (p : float) : Anim :=
  mkAnim (kind a) (startPos a) (newCameraPos a) (startTarget a) (endTarget a) p.

(** One call of a frame callback. [camera_position] and [controls_target]
    hold what the callback writes; [controls.update()], which then derives
    the camera position anew from its distance and angles about the target
    (and can move it by a rounding error), belongs to OrbitControls and is
    not modelled. *)
Definition run_callback (a : Anim) (s : State) : State :=
  match kind a with
  | AnimateCamera =>
      let progress := progress a + 0.04 in
      if progress <? 1 then
        let s1 := set_pose (lerpVectors (startPos a) (newCameraPos a) progress)
                           (lerpVectors (startTarget a) (endTarget a) progress) s in
        requestAnimationFrame_ref (with_progress a progress) s1
      else
        let s1 := set_pose (newCameraPos a) (endTarget a) s in
        let s2 := setIsTransitioning false s1 in
        let s3 := set_frames (pending s2) (next_handle s2) None s2 in
        console_log CameraAnimationComplete s3
  | AnimateTransition targetSystem =>
      let transitionDuration := 60 in
      let progress := progress a + 1 / transitionDuration in
      if progress <? 1 then
        let s1 := set_pose (lerpVectors (startPos a) (newCameraPos a) progress)
                           (lerpVectors (startTarget a) (endTarget a) progress) s in
        requestAnimationFrame_ref (with_progress a progress) s1
      else
        let s1 := console_log TransitionCompleteSwitchingView s in
        let s2 := set_frames (pending s1) (next_handle s1) None s1 in
        handleSystemClick targetSystem s2
  | AnimateBack =>
      let progress := progress a + 0.04 in
      if progress <? 1 then
        let s1 := set_pose (lerpVectors (startPos a) (newCameraPos a) progress)
                           (lerpVectors (startTarget a) (endTarget a) progress) s in
        requestAnimationFrame_ref (with_progress a progress) s1
      else
        let s1 := set_pose (newCameraPos a) (endTarget a) s in
        let s2 := setIsTransitioning false s1 in
        set_frames (pending s2) (next_handle s2) None s2
  end.

(** [focusPlanet(planetName, planetPosition, planetRadius)] *)
Definition focusPlanet (planetName : string) (planetPosition : Vec3)
  (planetRadius : float) (s : State) : State :=
  let s1 := setIsTransitioning true (setFocusedPlanet (Some planetName) s) in
  let distance := Math_max (planetRadius * 8) 5 in
  let newCameraPos := mkVec3 (x planetPosition + distance)
                             (y planetPosition + distance * 0.5)
                             (z planetPosition + distance) in
  let a := mkAnim AnimateCamera (camera_position s1) newCameraPos
                  (controls_target s1) planetPosition 0 in
  run_callback a (cancel_existing s1).

Definition initialCameraPos : Vec3 := mkVec3 0 200 400.

(** [handleBackToSystem()] *)
Definition handleBackToSystem (s : State) : State :=
  let s1 := setIsTransitioning true (setFocusedPlanet None s) in
  let s2 := cancel_existing s1 in
  let a := mkAnim AnimateBack (camera_position s2) initialCameraPos
                  (controls_target s2) (mkVec3 0 0 0) 0 in
  run_callback a s2.

(** [onClick]: hit spheres, then planet meshes, then system markers. *)
Definition onClick (h : Hits) (s : State) : State :=
  match hitboxIntersects h with
  | i :: _ =>
      let clickedHitbox := object i in
      focusPlanet (hitbox_name clickedHitbox)
                  (planet_position (parentPlanet clickedHitbox))
                  (hitbox_radius clickedHitbox) s
  | [] =>
  match planetIntersects h with
  | i :: _ =>
      let clickedPlanet := object i in
      focusPlanet (planet_name clickedPlanet) (planet_position clickedPlanet)
                  (planet_radius clickedPlanet) s
  | [] =>
  match systemIntersects h with
  | i :: _ =>
      let index := systemIndex (object i) in
      match nth_error (systemData s) index, nth_error (systemMarkers s) index with
      | Some targetSystem, Some marker =>
          let markerPos := marker_position marker in
          let s1 := cancel_existing (setIsTransitioning true s) in
          let zoomDistance := 50 in
          let newCameraPos := mkVec3 (x markerPos + zoomDistance)
                                     (y markerPos + zoomDistance * 0.5)
                                     (z markerPos + zoomDistance) in
          let a := mkAnim (AnimateTransition targetSystem)
                          (camera_position s1) newCameraPos
                          (controls_target s1) markerPos 0 in
          run_callback a s1
      | _, _ => console_log NoObjectClicked s
      end
  | [] => console_log NoObjectClicked s
  end end end.

(** [onMouseMove]: hit spheres, then orbit lines, then system markers.
    The tooltip position [mousePos], set on every move, is left out. *)
Definition onMouseMove (h : Hits) (s : State) : State :=
  match hitboxIntersects h with
  | _ :: _ => set_hover (hoveredSystem s) (hoveredOrbit s) pointer s
  | [] =>
  match orbitIntersects h with
  | i :: _ =>
      set_hover (hoveredSystem s) (Some (planetName (object i))) pointer s
  | [] =>
      let s1 := set_hover (hoveredSystem s) None (cursor s) s in
      match systemIntersects h with
      | i :: _ =>
          match nth_error (systemData s1) (systemIndex (object i)) with
          | Some sys => set_hover (Some sys) (hoveredOrbit s1) pointer s1
          | None => set_hover None (hoveredOrbit s1) default s1
          end
      | [] => set_hover None (hoveredOrbit s1) default s1
      end
  end end.

(** One browser frame: the callbacks registered before the frame run once,
    in order; what they register waits for the next frame. *)
Definition frame (s : State) : State :=
  fold_left (fun st e => run_callback (snd e) st) (pending s)
            (set_frames [] (next_handle s) (animationFrameRef s) s).

Inductive Event : Type :=
| Frame
| Click (h : Hits)
| MouseMove (h : Hits)
| Back.

(** Once SystemNavigator has left the solar view, the renderer is unmounted:
    its listeners are removed and its frames cancelled. *)
Definition step (s : State) (e : Event) : State :=
  match currentView s with
  | exoplanet => s
  | solar =>
      match e with
      | Frame => frame s
      | Click h => onClick h s
      | MouseMove h => onMouseMove h s
      | Back => handleBackToSystem s
      end
  end.

Definition run (s : State) (es : list Event) : State := fold_left step es s.

(** At most one camera callback waits for the next frame, and
    [animationFrameRef] holds its handle. *)
Definition one_live (s : State) : Prop :=
  (pending s = [] /\ animationFrameRef s = None) \/
  (exists h a, pending s = [(h, a)] /\ animationFrameRef s = Some h).

(** The step a callback of kind [k] adds to its progress on each call. *)
Definition increment (k : AnimKind) : float :=
  match k with
  | AnimateCamera => 0.04
  | AnimateTransition _ => 1 / 60
  | AnimateBack => 0.04
  end.

(** The progress after [n] calls. *)
Fixpoint prog (inc : float) (n : nat) : float :=
  match n with
  | O => 0
  | S k => prog inc k + inc
  end.

(** One callback [a] is waiting and [animationFrameRef] holds its handle. *)
Definition in_flight (a : Anim) (s : State) : Prop :=
  currentView s = solar /\
  exists h, pending s = [(h, a)] /\ animationFrameRef s = Some h.

End SolarSystemRenderer.

(** ** components/StarRenderer.tsx: clicking a planet *)

Module StarRenderer.

Import Floats JSFloat.
Local Open Scope float_scope.
Set Warnings "-inexact-float".

(** A planet mesh with its [userData.name] and its position. *)
Record PlanetObj : Type := mkPlanetObj {
  planet_name : string;
  planet_position : Vec3
}.

(** The closure [animateCamera] of one click. It is handed to
    [requestAnimationFrame] directly; the handle is not kept. *)
Record Anim : Type := mkAnim {
  startPos : Vec3;
  newCameraPos : Vec3;
  startTarget : Vec3;
  targetPos : Vec3;
  progress : float
}.

(** The camera and the controls that a callback captured, with what the
    callbacks write to them, the callbacks themselves and the focus. A
    change of focus makes the component build its scene anew, with a new
    camera (module [StarBack] has the builds); a callback goes on writing
    the camera it captured, and it is that camera this record follows.
    Where callbacks of two clicks wait together, their writes are recorded
    here as if to one camera: of such runs only the callbacks that wait are
    stated below. *)
Record State : Type := mkState {
  camera_position : Vec3;
  controls_target : Vec3;
  pending : list Anim;
  focusedPlanet : option string
}.

(** [animateCamera]: [progress += 0.02; if (progress <= 1) { lerp; lerp;
    requestAnimationFrame(animateCamera); }]. [controls.update()] of the
    render loop is not modelled. *)
Definition animateCamera (a : Anim) (s : State) : State :=
  let progress := progress a + 0.02 in
  if progress <=? 1 then
    mkState (lerpVectors (startPos a) (newCameraPos a) progress)
            (lerpVectors (startTarget a) (targetPos a) progress)
            (pending s ++ [mkAnim (startPos a) (newCameraPos a)
                                  (startTarget a) (targetPos a) progress])
            (focusedPlanet s)
  else s.

(** [onClick], given [raycaster.intersectObjects(planetObjects)]. *)
Definition onClick (intersects : list (Intersection PlanetObj)) (s : State) : State :=
  match intersects with
  | i :: _ =>
      let clickedPlanet := object i in
      let s1 := mkState (camera_position s) (controls_target s) (pending s)
                        (Some (planet_name clickedPlanet)) in
      let targetPos := planet_position clickedPlanet in
      let distance := 50 in
      let newCameraPos := mkVec3 (x targetPos + distance)
                                 (y targetPos + distance * 0.5)
                                 (z targetPos + distance) in
      let a := mkAnim (camera_position s1) newCameraPos
                      (controls_target s1) targetPos 0 in
      animateCamera a s1
  | [] => s
  end.

(** One browser frame: every waiting callback runs once. *)
Definition frame (s : State) : State :=
  fold_left (fun st a => animateCamera a st) (pending s)
            (mkState (camera_position s) (controls_target s) [] (focusedPlanet s)).

Inductive Event : Type :=
| Frame
| Click (intersects : list (Intersection PlanetObj)).

Definition step (s : State) (e : Event) : State :=
  match e with
  | Frame => frame s
  | Click i => onClick i s
  end.

Definition run (s : State) (es : list Event) : State := fold_left step es s.

End StarRenderer.

(** ** components/StarRenderer.tsx: framing the system *)

Module StarSetup.

Import JSReal StarScene.
Local Open Scope R_scope.

(** [maxOrbitRadius_AU]: the largest semi-major axis of the records, from
    0 up, and 2 when none is above 0. *)
Definition maxOrbitRadius_AU (planets : list PlanetRecord) : R :=
  let m :=
    fold_left
      (fun maxOrbitRadius_AU planet =>
         if negb (js_not (pl_orbsmax planet))
            && Rltb maxOrbitRadius_AU (js_or (pl_orbsmax planet) 0)
         then js_or (pl_orbsmax planet) 0
         else maxOrbitRadius_AU)
      planets 0 in
  if Req_dec_T m 0 then 2 else m.

Definition systemRadius (planets : list PlanetRecord) : R :=
  maxOrbitRadius_AU planets * AU_TO_SCENE_UNITS.

Definition cameraDistance (planets : list PlanetRecord) : R :=
  systemRadius planets * 3.3.

(** [camera.position.set(0, cameraDistance * 0.3, cameraDistance)], the
    camera looking at the origin. *)
Definition camera_position (planets : list PlanetRecord) : R * R * R :=
  (0, cameraDistance planets * 0.3, cameraDistance planets).

Definition minDistance (planets : list PlanetRecord) : R :=
  systemRadius planets * 0.05.

Definition maxDistance (planets : list PlanetRecord) : R :=
  systemRadius planets * 20.

Definition norm2 (p : R * R * R) : R :=
  let '(px, py, pz) := p in px * px + py * py + pz * pz.

End StarSetup.

(** ** components/SolarSystemRenderer.tsx: orbits, focus distance, pointer *)

Module SolarGeometry.

Import JSReal.
Local Open Scope R_scope.
Local Open Scope string_scope.

(** [realOrbitalDistances], in AU. *)
Definition realOrbitalDistances (name : string) : field :=
  if String.eqb name "Mercury" then Some 0.39
  else if String.eqb name "Venus" then Some 0.72
  else if String.eqb name "Earth" then Some 1.0
  else if String.eqb name "Mars" then Some 1.52
  else if String.eqb name "Jupiter" then Some 5.2
  else if String.eqb name "Saturn" then Some 9.54
  else if String.eqb name "Uranus" then Some 19.19
  else if String.eqb name "Neptune" then Some 30.07
  else None.

Definition AU_SCALE : R := 40.

(** [(realOrbitalDistances[pData.name] || pData.orbitalRadius) * AU_SCALE] *)
Definition orbitalRadius (name : string) (pData_orbitalRadius : R) : R :=
  js_or (realOrbitalDistances name) pData_orbitalRadius * AU_SCALE.

Definition segments : nat := 128.

(** The points of a planet's orbit line:
    [theta = (i / segments) * Math.PI * 2], [(r cos theta, 0, r sin theta)]
    for [i = 0..segments]. *)
Definition orbit_theta (i : nat) : R := INR i / INR segments * PI * 2.

Definition orbitPoints (orbitalRadius : R) : list (R * R * R) :=
  map (fun i => (orbitalRadius * cos (orbit_theta i), 0,
                 orbitalRadius * sin (orbit_theta i)))
      (seq 0 (S segments)).




(** [focusPlanet]: [distance = Math.max(planetRadius * 8, 5)] and the
    offset of the camera's end position from the planet. *)
Definition focus_distance (planetRadius : R) : R := Rmax (planetRadius * 8) 5.

Definition focus_offset (planetRadius : R) : R * R * R :=
  let distance := focus_distance planetRadius in
  (distance, distance * 0.5, distance).

(** [controls.minDistance = 5; controls.maxDistance = 5000;] *)
Definition controls_minDistance : R := 5.
Definition controls_maxDistance : R := 5000.

(** The pointer in normalised device coordinates, as both renderers
    compute it from the event and the canvas rectangle. *)
Record Rect : Type := mkRect { left : R; top : R; width : R; height : R }.

Definition mouse_ndc (clientX clientY : R) (rect : Rect) : R * R :=
  ((clientX - left rect) / width rect * 2 - 1,
   - ((clientY - top rect) / height rect) * 2 + 1).

End SolarGeometry.

(** ** components/StarRenderer.tsx: back to the system, hover labels *)

Module StarBack.

Import Floats JSFloat.
Local Open Scope float_scope.
Set Warnings "-inexact-float".

(** What one run of the effect builds: a camera and its controls, here
    with the position and the target that the effect and the callbacks
    write. The render loop's [controls.update()] belongs to OrbitControls
    and is not modelled. *)
Record Build : Type := mkBuild {
  camera_position : Vec3;
  controls_target : Vec3
}.

(** The two [animateCamera] closures: of [onClick] and of
    [handleBackToSystem]. *)
Inductive Owner : Type := OfClick | OfBack.

(** A callback waiting for a frame: the build whose camera and controls
    it captured, the handler it comes from, and its variables. *)
Record Callback : Type := mkCallback {
  build : nat;
  owner : Owner;
  closure : StarRenderer.Anim
}.

(** The component: every camera built so far, the last one being the one
    behind [cameraRef] and on screen; the callbacks handed to
    [requestAnimationFrame]; the focus; and the camera position the effect
    computes from the planets, which is also what it stores in
    [initialCameraPosRef]. *)
Record State : Type := mkState {
  builds : list Build;
  pending : list Callback;
  focusedPlanet : option string;
  mountPose : Vec3
}.

(** The index of the build behind [cameraRef] and [controlsRef]. *)
Definition current (s : State) : nat := (length (builds s) - 1)%nat.

(** A write to the camera and the controls of build [c]. *)
Fixpoint write (c : nat) (b : Build) (bs : list Build) : list Build :=
  match bs, c with
  | [], _ => []
  | _ :: t, O => b :: t
  | h :: t, S k => h :: write k b t
  end.

(** A render with a changed focus: [starData] is a new object on every
    render and is among the effect's dependencies, so the clean-up runs
    (the render loop is cancelled, the listeners removed; the callbacks
    handed to [requestAnimationFrame] are not) and the effect builds scene,
    camera and controls anew, the camera at the position computed from the
    planets and the controls looking at the origin. The render and the
    effect are taken to be done before the next frame or event. *)
Definition rebuild (focus : option string) (s : State) : State :=
  mkState (builds s ++ [mkBuild (mountPose s) (mkVec3 0 0 0)])
          (pending s) focus (mountPose s).

Definition same_focus (f g : option string) : bool :=
  match f, g with
  | Some a, Some b => String.eqb a b
  | None, None => true
  | _, _ => false
  end.

(** [setFocusedPlanet(v)]: no render when the value is the one held. *)
Definition setFocusedPlanet (v : option string) (s : State) : State :=
  if same_focus v (focusedPlanet s) then s else rebuild v s.

(** One call of [animateCamera]: [progress += 0.02; if (progress <= 1)
    { lerp; lerp; requestAnimationFrame(animateCamera); }], and for the one
    of [handleBackToSystem] [else { setFocusedPlanet(null); }]. *)
Definition animateCamera (cb : Callback) (s : State) : State :=
  let a := closure cb in
  let progress := StarRenderer.progress a + 0.02 in
  if progress <=? 1 then
    mkState (write (build cb)
               (mkBuild (lerpVectors (StarRenderer.startPos a)
                                     (StarRenderer.newCameraPos a) progress)
                        (lerpVectors (StarRenderer.startTarget a)
                                     (StarRenderer.targetPos a) progress))
               (builds s))
            (pending s ++ [mkCallback (build cb) (owner cb)
                             (StarRenderer.mkAnim (StarRenderer.startPos a)
                                (StarRenderer.newCameraPos a) (StarRenderer.startTarget a)
                                (StarRenderer.targetPos a) progress)])
            (focusedPlanet s) (mountPose s)
  else
    match owner cb with
    | OfClick => s
    | OfBack => setFocusedPlanet None s
    end.

(** [handleBackToSystem]: the camera and the controls are those behind the
    refs when the button is pressed. *)
Definition handleBackToSystem (s : State) : State :=
  match nth_error (builds s) (current s) with
  | Some b =>
      let targetPos := mkVec3 0 0 0 in
      animateCamera (mkCallback (current s) OfBack
                       (StarRenderer.mkAnim (camera_position b) (mountPose s)
                                            (controls_target b) targetPos 0)) s
  | None => setFocusedPlanet None s
  end.

(** [onClick] of the build on screen: the first call of [animateCamera]
    is made by the handler; the render that [setFocusedPlanet] asked for
    comes after the handler. *)
Definition onClick (intersects : list (Intersection StarRenderer.PlanetObj))
  (s : State) : State :=
  match intersects, nth_error (builds s) (current s) with
  | i :: _, Some b =>
      let clickedPlanet := object i in
      let targetPos := StarRenderer.planet_position clickedPlanet in
      let distance := 50 in
      let newCameraPos := mkVec3 (x targetPos + distance)
                                 (y targetPos + distance * 0.5)
                                 (z targetPos + distance) in
      let a := StarRenderer.mkAnim (camera_position b) newCameraPos
                                   (controls_target b) targetPos 0 in
      setFocusedPlanet (Some (StarRenderer.planet_name clickedPlanet))
        (animateCamera (mkCallback (current s) OfClick a) s)
  | _, _ => s
  end.

(** One browser frame: every waiting callback runs once. *)
Definition frame (s : State) : State :=
  fold_left (fun st cb => animateCamera cb st) (pending s)
            (mkState (builds s) [] (focusedPlanet s) (mountPose s)).



End StarBack.

Module StarHover.

(** The hover test of the render loop. A planet mesh is named by its
    position in [planetMeshes]; [labels] holds, for each, whether its label
    is visible. *)
Record State : Type := mkState {
  hoveredPlanet : option nat;
  labels : list bool;
  cursor : SolarSystemRenderer.Cursor;
  starLabel : bool
}.

(** [entry.label.element.style.visibility = ...] for the entry found by
    [planetMeshes.find(p => p.mesh === m)]; nothing is done when none is
    found. *)
Fixpoint set_label (m : nat) (visible : bool) (labels : list bool) : list bool :=
  match labels, m with
  | [], _ => []
  | _ :: t, O => visible :: t
  | b :: t, S k => b :: set_label k visible t
  end.

(** One pass of the render loop, given the planet meshes under the pointer
    (nearest first) and whether the star is under it. *)
Definition hover (intersects : list nat) (starIntersects : bool) (s : State) : State :=
  let s1 :=
    match intersects with
    | planet :: _ =>
        if match hoveredPlanet s with
           | Some h => Nat.eqb h planet
           | None => false
           end
        then s
        else
          let labels1 := match hoveredPlanet s with
                         | Some prev => set_label prev false (labels s)
                         | None => labels s
                         end in
          mkState (Some planet) (set_label planet true labels1)
                  SolarSystemRenderer.pointer (starLabel s)
    | [] =>
        match hoveredPlanet s with
        | Some prev =>
            mkState None (set_label prev false (labels s))
                    SolarSystemRenderer.default (starLabel s)
        | None =>
            mkState None (labels s) SolarSystemRenderer.default (starLabel s)
        end
    end in
  mkState (hoveredPlanet s1) (labels s1) (cursor s1) starIntersects.

(** The scene as built: every label hidden, nothing hovered. *)
Definition initial (planets : nat) (c : SolarSystemRenderer.Cursor) : State :=
  mkState None (repeat false planets) c false.

Definition run (s : State) (passes : list (list nat * bool)) : State :=
  fold_left (fun st p => hover (fst p) (snd p) st) passes s.

End StarHover.

(** ** components/SystemNavigator.tsx: reading the planet table *)

Module CsvLoader.

Import Stdlib.Strings.Ascii JSReal.

Definition newline : ascii := "010"%char.
Definition comma : ascii := ","%char.

(** The white space [trim] removes, as far as it is ASCII. *)
Definition is_white (c : ascii) : bool :=
  let n := nat_of_ascii c in
  (Nat.leb 9 n && Nat.leb n 13) || Nat.eqb n 32.

Fixpoint trimStart (s : string) : string :=
  match s with
  | EmptyString => EmptyString
  | String c t => if is_white c then trimStart t else s
  end.

Fixpoint trimEnd (s : string) : string :=
  match s with
  | EmptyString => EmptyString
  | String c t =>
      match trimEnd t with
      | EmptyString => if is_white c then EmptyString else String c EmptyString
      | t' => String c t'
      end
  end.

(** [s.trim()] *)
Definition trim (s : string) : string := trimEnd (trimStart s).

(** [s.split(sep)] for a one-character separator: the pieces between the
    separators, one more than there are separators. *)
Fixpoint split (sep : ascii) (s : string) : list string :=
  match s with
  | EmptyString => [EmptyString]
  | String c t =>
      if Ascii.eqb c sep then EmptyString :: split sep t
      else match split sep t with
           | h :: r => String c h :: r
           | [] => [String c EmptyString]
           end
  end.

(** [line.startsWith('#')] *)
Definition startsWith_hash (line : string) : bool :=
  match line with
  | String c _ => Ascii.eqb c "#"%char
  | EmptyString => false
  end.

(** [!line.startsWith('#') && line.trim()] *)
Definition kept_line (line : string) : bool :=
  negb (startsWith_hash line) && negb (String.eqb (trim line) EmptyString).

(** [text.split('\n').filter(...)] *)
Definition lines (text : string) : list string :=
  filter kept_line (split newline text).

(** [headers.indexOf(name)], [None] for -1. *)
Fixpoint indexOf (headers : list string) (name : string) : option nat :=
  match headers with
  | [] => None
  | h :: t => if String.eqb h name then Some 0%nat
              else option_map S (indexOf t name)
  end.

(** [row[index]]: [undefined] for -1 and past the end. *)
Definition cell (row : list string) (index : option nat) : option string :=
  match index with
  | Some i => nth_error row i
  | None => None
  end.

(** [row[index]?.trim() || ''] *)
Definition text_cell (row : list string) (index : option nat) : string :=
  match cell row index with
  | Some c => trim c
  | None => EmptyString
  end.

Record ColIndices : Type := mkColIndices {
  col_pl_name : option nat;
  col_hostname : option nat;
  col_pl_orbsmax : option nat;
  col_pl_orbeccen : option nat;
  col_pl_orbincl : option nat;
  col_pl_orblper : option nat;
  col_pl_rade : option nat;
  col_pl_bmasse : option nat
}.

Definition colIndices (headers : list string) : ColIndices :=
  mkColIndices (indexOf headers "pl_name") (indexOf headers "hostname")
               (indexOf headers "pl_orbsmax") (indexOf headers "pl_orbeccen")
               (indexOf headers "pl_orbincl") (indexOf headers "pl_orblper")
               (indexOf headers "pl_rade") (indexOf headers "pl_bmasse").

Section Parse.

(** [parseFloat] of JavaScript, on a string. *)
Variable parseFloat : string -> number.

(** [parseFloat(row[index]) || undefined]: [NaN] (also what an undefined
    cell parses to) and 0 give [undefined]. *)
Definition number_cell (row : list string) (index : option nat) : field :=
  match cell row index with
  | Some c =>
      match parseFloat c with
      | Fin r => if Req_dec_T r 0 then None else Some r
      | NaN => None
      end
  | None => None
  end.

Definition parse_row (cols : ColIndices) (line : string) : StarScene.PlanetRecord :=
  let row := split comma line in
  StarScene.mkPlanetRecord
    (text_cell row (col_pl_name cols))
    (text_cell row (col_hostname cols))
    (number_cell row (col_pl_orbsmax cols))
    (number_cell row (col_pl_orbeccen cols))
    (number_cell row (col_pl_orbincl cols))
    (number_cell row (col_pl_orblper cols))
    (number_cell row (col_pl_rade cols))
    (number_cell row (col_pl_bmasse cols)).

(** [if (planet.pl_name && planet.hostname)] *)
Definition named (planet : StarScene.PlanetRecord) : bool :=
  negb (String.eqb (StarScene.pl_name planet) EmptyString)
  && negb (String.eqb (StarScene.hostname planet) EmptyString).

(** The planets [loadData] hands to [setPlanetsData]; with at most one
    line nothing is set and the list stays empty. *)
Definition planets_of_lines (ls : list string) : list StarScene.PlanetRecord :=
  match ls with
  | header :: (_ :: _) as rows =>
      let cols := colIndices (split comma header) in
      filter named (map (parse_row cols) rows)
  | _ => []
  end.

Definition loadPlanets (text : string) : list StarScene.PlanetRecord :=
  planets_of_lines (lines text).

End Parse.

End CsvLoader.

(** ** app/upload/page.tsx: choosing a file *)

Module UploadPage.

Record File : Type := mkFile { file_name : string; file_type : string }.

(** [name.endsWith('.csv')] *)
Fixpoint endsWith_csv (name : string) : bool :=
  match name with
  | EmptyString => false
  | String _ t => String.eqb name ".csv" || endsWith_csv t
  end.

(** The test both handlers make: the file is refused when
    [type !== 'text/csv' && !name.endsWith('.csv')]. *)
Definition refused (f : File) : bool :=
  negb (String.eqb (file_type f) "text/csv") && negb (endsWith_csv (file_name f)).

Record State : Type := mkState { file : option File; error : option string }.

(** [handleFileChange], given [e.target.files?.[0]]. *)
Definition handleFileChange (selectedFile : option File) (s : State) : State :=
  match selectedFile with
  | Some f =>
      if refused f then mkState None (Some "Please select a valid CSV file"%string)
      else mkState (Some f) None
  | None => s
  end.

(** [handleDrop], given [e.dataTransfer.files[0]]. *)
Definition handleDrop (droppedFile : option File) (s : State) : State :=
  match droppedFile with
  | Some f =>
      if refused f then mkState (file s) (Some "Please drop a valid CSV file"%string)
      else mkState (Some f) None
  | None => s
  end.

Inductive Event : Type :=
| Change (selectedFile : option File)
| Drop (droppedFile : option File).

Definition step (s : State) (e : Event) : State :=
  match e with
  | Change f => handleFileChange f s
  | Drop f => handleDrop f s
  end.

Definition initial : State := mkState None None.

End UploadPage.

(** ** JavaScript numbers as IEEE doubles: overflow and rounding *)

Module JSDouble.

Local Open Scope R_scope.

(** A JavaScript number: a finite double, an infinity or [NaN]. The sign
    of zero is not kept. *)
Inductive number : Type :=
| Fin (r : R)
| Inf (positive : bool)
| NaN.

Definition finite (p : number) : Prop :=
  match p with
  | Fin _ => True
  | _ => False
  end.

(** [Number.MAX_VALUE], and the least magnitude that rounds to an
    infinity: half a unit in the last place above it. *)
Definition MAX_VALUE : R := (2 - powerRZ 2 (-52)) * powerRZ 2 1023.
Definition OVERFLOW : R := powerRZ 2 1024 - powerRZ 2 970.

(** The doubles: [m * 2^e] with [|m| < 2^53], [e >= -1074] and magnitude
    up to [MAX_VALUE]. *)
Definition representable (x : R) : Prop :=
  exists m e : Z,
    x = IZR m * powerRZ 2 e /\ (Z.abs m < 2 ^ 53)%Z /\ (-1074 <= e)%Z /\
    Rabs x <= MAX_VALUE.

(** What is asked of the rounding [rnd] of a real to a double: it keeps
    the order and leaves the doubles as they are. Rounding to nearest, the
    mode of JavaScript, is such a function. *)
Definition rounds (rnd : R -> R) : Prop :=
  (forall x y, x <= y -> rnd x <= rnd y) /\
  (forall x, representable x -> rnd x = x).

(** What is asked of [Math.cos] and [Math.sin] on a finite argument: a
    result between -1 and 1. *)
Definition in_unit (f : R -> R) : Prop := forall x, -1 <= f x <= 1.

Definition positive_sign (r : R) : bool := if Rlt_dec 0 r then true else false.

Section Rounding.

Variable rnd : R -> R.

(** The result of an operation whose exact value is [r]. *)
Definition fl (r : R) : number :=
  if Rlt_dec (Rabs r) OVERFLOW then Fin (rnd r) else Inf (positive_sign r).

Definition nneg (p : number) : number :=
  match p with
  | Fin r => Fin (- r)
  | Inf s => Inf (negb s)
  | NaN => NaN
  end.

Definition nadd (p q : number) : number :=
  match p, q with
  | Fin a, Fin b => fl (a + b)
  | Fin _, Inf s => Inf s
  | Inf s, Fin _ => Inf s
  | Inf s, Inf t => if Bool.eqb s t then Inf s else NaN
  | _, _ => NaN
  end.

Definition nsub (p q : number) : number := nadd p (nneg q).

Definition nmul (p q : number) : number :=
  match p, q with
  | Fin a, Fin b => fl (a * b)
  | Fin b, Inf s | Inf s, Fin b =>
      if Req_dec_T b 0 then NaN
      else Inf (if Rlt_dec 0 b then s else negb s)
  | Inf s, Inf t => Inf (Bool.eqb s t)
  | _, _ => NaN
  end.

Definition ndiv (p q : number) : number :=
  match p, q with
  | Fin a, Fin b =>
      if Req_dec_T b 0
      then (if Req_dec_T a 0 then NaN else Inf (positive_sign a))
      else fl (a / b)
  | Fin _, Inf _ => Fin 0
  | Inf s, Fin b => Inf (if Rlt_dec b 0 then negb s else s)
  | _, _ => NaN
  end.

(** [Math.sqrt]: correctly rounded; [NaN] below zero. *)
Definition Math_sqrt (p : number) : number :=
  match p with
  | Fin a => if Rlt_dec a 0 then NaN else Fin (rnd (sqrt a))
  | Inf true => Inf true
  | _ => NaN
  end.

End Rounding.

(** [Math.min] of two numbers. *)
Definition Math_min (p q : number) : number :=
  match p, q with
  | NaN, _ | _, NaN => NaN
  | Inf false, _ | _, Inf false => Inf false
  | Inf true, x | x, Inf true => x
  | Fin a, Fin b => Fin (Rmin a b)
  end.

(** An optional numeric field of a record; [None] is [undefined]. *)
Definition field := option number.

Definition falsy (p : number) : bool :=
  match p with
  | Fin r => if Req_dec_T r 0 then true else false
  | Inf _ => false
  | NaN => true
  end.

(** [!x] *)
Definition js_not (x : field) : bool :=
  match x with
  | None => true
  | Some p => falsy p
  end.

(** [x || d] *)
Definition js_or (x : field) (d : number) : number :=
  match x with
  | None => d
  | Some p => if falsy p then d else p
  end.

(** [x <= 0] *)
Definition js_le0 (x : field) : bool :=
  match x with
  | Some (Fin r) => if Rle_dec r 0 then true else false
  | Some (Inf s) => negb s
  | _ => false
  end.

Record Vector3 : Type := mkVector3 { vx : number; vy : number; vz : number }.

Definition finite3 (p : Vector3) : Prop :=
  finite (vx p) /\ finite (vy p) /\ finite (vz p).

End JSDouble.

(** ** components/OrbitalPaths.tsx, in doubles *)

Module OrbitalPathsDouble.

Import JSDouble.
Local Open Scope R_scope.

Record OrbitData : Type := mkOrbitData {
  pl_orbsmax : field;
  pl_orbeccen : field;
  pl_orbincl : field;
  pl_orblper : field
}.

(** [if (!orbit.pl_orbsmax || orbit.pl_orbsmax <= 0) return;] *)
Definition skipped (orbit : OrbitData) : bool :=
  js_not (pl_orbsmax orbit) || js_le0 (pl_orbsmax orbit).

Section Loop.

(** The rounding of the arithmetic, and what [Math.cos] and [Math.sin]
    return on a finite argument. *)
Variable rnd : R -> R.
Variables Math_cos_R Math_sin_R : R -> R.

Definition Math_cos (p : number) : number :=
  match p with
  | Fin a => Fin (Math_cos_R a)
  | _ => NaN
  end.

Definition Math_sin (p : number) : number :=
  match p with
  | Fin a => Fin (Math_sin_R a)
  | _ => NaN
  end.

(** [Math.PI] and the literal [0.95]: the doubles nearest to them. *)
Definition Math_PI : number := Fin (rnd PI).
Definition lit_0_95 : number := Fin (rnd 0.95).

(** [const a = orbit.pl_orbsmax * 3 + starRadius;] *)
Definition scene_a (orbit : OrbitData) (starRadius : number) : number :=
  nadd rnd (nmul rnd (match pl_orbsmax orbit with Some v => v | None => NaN end) (Fin 3))
       starRadius.

(** [const ecc = Math.min(orbit.pl_orbeccen || 0, 0.95);] *)
Definition ecc (orbit : OrbitData) : number :=
  Math_min (js_or (pl_orbeccen orbit) (Fin 0)) lit_0_95.

(** [const b = a * Math.sqrt(1 - ecc * ecc);] *)
Definition scene_b (orbit : OrbitData) (starRadius : number) : number :=
  nmul rnd (scene_a orbit starRadius)
       (Math_sqrt rnd (nsub rnd (Fin 1) (nmul rnd (ecc orbit) (ecc orbit)))).

(** [(orbit.pl_orbincl || 0) * (Math.PI / 180)] *)
Definition inclination (orbit : OrbitData) : number :=
  nmul rnd (js_or (pl_orbincl orbit) (Fin 0)) (ndiv rnd Math_PI (Fin 180)).

Definition argPeriastron (orbit : OrbitData) : number :=
  nmul rnd (js_or (pl_orblper orbit) (Fin 0)) (ndiv rnd Math_PI (Fin 180)).

(** [const theta = (i / 180) * 2 * Math.PI;] *)
Definition theta (i : nat) : number :=
  nmul rnd (nmul rnd (ndiv rnd (Fin (INR i)) (Fin 180)) (Fin 2)) Math_PI.

(** The body of the inner loop. *)
Definition orbit_point (orbit : OrbitData) (starRadius : number) (i : nat) : Vector3 :=
  let a := scene_a orbit starRadius in
  let b := scene_b orbit starRadius in
  let incl := inclination orbit in
  let argP := argPeriastron orbit in
  let th := theta i in
  let x := nmul rnd a (Math_cos th) in
  let y := nmul rnd b (Math_sin th) in
  let px := nsub rnd (nmul rnd x (Math_cos argP)) (nmul rnd y (Math_sin argP)) in
  let py := nadd rnd (nmul rnd x (Math_sin argP)) (nmul rnd y (Math_cos argP)) in
  let pz := Fin 0 in
  let inc_py := nsub rnd (nmul rnd py (Math_cos incl)) (nmul rnd pz (Math_sin incl)) in
  let inc_pz := nadd rnd (nmul rnd py (Math_sin incl)) (nmul rnd pz (Math_cos incl)) in
  mkVector3 px inc_py inc_pz.

(** [for (let i = 0; i <= 180; i++) { ... points.push(...) }] *)
Definition orbit_points (orbit : OrbitData) (starRadius : number) : list Vector3 :=
  map (orbit_point orbit starRadius) (seq 0 181).

End Loop.

(** The eccentricities and the angles the curve is safe for: an
    eccentricity that is missing, [NaN], plus infinity or at least -0.95;
    an angle that is missing, [NaN] or finite. *)
Definition eccentricity_in_range (x : field) : Prop :=
  match x with
  | Some (Fin e) => -0.95 <= e
  | Some (Inf s) => s = true
  | _ => True
  end.

Definition angle_finite (x : field) : Prop :=
  match x with
  | Some (Fin r) => Rabs r <= MAX_VALUE
  | Some (Inf _) => False
  | _ => True
  end.

(** The bounds on the semi-major axis and the star radius used below. *)
Definition axis_min : R := powerRZ 2 (-1000).
Definition axis_max : R := powerRZ 2 1000.

(** Arithmetic that rounds nothing, overflow apart. *)
Definition exact (x : R) : R := x.

(** An orbit with [a = 1] and the invalid [e = 1.2]; one with [e = -2];
    and one whose semi-major axis is [Number.MAX_VALUE]. *)
Definition hyperbolic : OrbitData :=
  mkOrbitData (Some (Fin 1)) (Some (Fin 1.2)) None None.

Definition negative_ecc : OrbitData :=
  mkOrbitData (Some (Fin 1)) (Some (Fin (-2))) None None.

Definition huge_axis : OrbitData :=
  mkOrbitData (Some (Fin MAX_VALUE)) None None None.

End OrbitalPathsDouble.

(** ** Sample inputs *)

Module Samples.

Import JSReal.
Local Open Scope R_scope.

(** An orbit with [a = 1] and [e = 0.5]. *)
Definition half_eccentric : OrbitalPaths.OrbitData :=
  OrbitalPaths.mkOrbitData None (Some 1) (Some (1 / 2)) None None.

(** An orbit with [a = 1] and the invalid [e = 1.2]. *)
Definition hyperbolic : OrbitalPaths.OrbitData :=
  OrbitalPaths.mkOrbitData None (Some 1) (Some 1.2) None None.

(** An orbit without a semi-major axis. *)
Definition no_axis : OrbitalPaths.OrbitData :=
  OrbitalPaths.mkOrbitData None None (Some (1 / 2)) None None.

(** A planet record with [a = 1] and the invalid [e = 1.2]. *)
Definition hyperbolic_planet : StarScene.PlanetRecord :=
  StarScene.mkPlanetRecord "b" "host" (Some 1) (Some 1.2) None None None None.

(** A planet record with a negative semi-major axis. *)
Definition negative_axis_planet : StarScene.PlanetRecord :=
  StarScene.mkPlanetRecord "c" "host" (Some (-1)) None None None None None.

End Samples.

(** ** Sample scenes of the two views *)

Module SolarSamples.

Import Floats JSFloat SolarSystemRenderer.
Local Open Scope float_scope.
Set Warnings "-inexact-float".

Definition kepler : ExoplanetSystem := mkSystem "Kepler-22".
Definition marker0 : MarkerObj := mkMarkerObj 0 (mkVec3 500 30 (-200)).

Definition earth : PlanetObj := mkPlanetObj "Earth" 0.15 (mkVec3 40 0 0).
Definition earth_hitbox : HitboxObj := mkHitboxObj "Earth" 0.15 earth.
Definition earth_orbit : OrbitObj := mkOrbitObj "Earth".
Definition mars : PlanetObj := mkPlanetObj "Mars" 0.15 (mkVec3 0 0 60.8).
Definition mars_hitbox : HitboxObj := mkHitboxObj "Mars" 0.15 mars.

(** The overview as mounted: camera at its initial pose, nothing waiting. *)
Definition initial : State :=
  mkState solar None [marker0] [kepler] initialCameraPos (mkVec3 0 0 0)
          [] 0 None None None None false default [].

(** The pointer on the system marker. *)
Definition on_marker : Hits :=
  mkHits [] [] [] [mkIntersection 700 marker0].

(** The pointer on Earth: its hit sphere, the mesh inside it and its own
    orbit line are all under the pointer, the line nearest; the hit sphere
    of Mars lies behind. *)
Definition on_earth : Hits :=
  mkHits [mkIntersection 380 earth_hitbox; mkIntersection 410 mars_hitbox]
         [mkIntersection 382 earth]
         [mkIntersection 379 earth_orbit] [].

(** The pointer on an orbit line, with the system marker behind it. *)
Definition on_orbit_and_marker : Hits :=
  mkHits [] [] [mkIntersection 300 earth_orbit] [mkIntersection 700 marker0].

(** The overview with a system and an orbit being hovered. *)
Definition hovering : State :=
  mkState solar None [marker0] [kepler] initialCameraPos (mkVec3 0 0 0)
          [] 0 None (Some kepler) (Some "Earth"%string) None false pointer [].

End SolarSamples.

Module StarSamples.

Import Floats JSFloat StarRenderer.
Local Open Scope float_scope.
Set Warnings "-inexact-float".

Definition planet_b : PlanetObj := mkPlanetObj "b" (mkVec3 100 0 0).
Definition planet_c : PlanetObj := mkPlanetObj "c" (mkVec3 (-80) 0 40).

(** The star view as mounted. *)
Definition initial : State := mkState (mkVec3 0 100 300) (mkVec3 0 0 0) [] None.

Definition on_b : list (Intersection PlanetObj) := [mkIntersection 310 planet_b].
Definition on_c : list (Intersection PlanetObj) := [mkIntersection 330 planet_c].

End StarSamples.

(** * Properties *)

(** ** Idealised numbers and [forEach] *)

Module JSRealFacts.

Import JSReal.
Local Open Scope R_scope.

Lemma js_or_truthy (r d : R) : r <> 0 -> js_or (Some r) d = r.
Proof.
  intros Hr. unfold js_or. destruct (Req_dec_T r 0) as [E | _]; [contradiction | reflexivity].
Qed.

Lemma js_or_zero_default (x : field) :
  js_or x 0 = match x with Some r => r | None => 0 end.
Proof.
  destruct x as [r |]; simpl; [| reflexivity].
  destruct (Req_dec_T r 0) as [E | _]; [now rewrite E | reflexivity].
Qed.

(** The guard [!x || x <= 0] passes exactly the positive numbers. *)
Lemma guard_positive (x : field) :
  js_not x || js_le0 x = false <-> exists a, x = Some a /\ 0 < a.
Proof.
  destruct x as [r |]; simpl.
  - unfold Rleb. destruct (Req_dec_T r 0) as [E | N]; destruct (Rle_dec r 0) as [L | G]; simpl.
    + split; [discriminate | intros (a & Ha & Hp); injection Ha as <-; lra].
    + split; [discriminate | intros (a & Ha & Hp); injection Ha as <-; lra].
    + split; [discriminate | intros (a & Ha & Hp); injection Ha as <-; lra].
    + split; [intros _; exists r; split; [reflexivity | lra] | reflexivity].
  - split; [discriminate | intros (a & Ha & _); discriminate].
Qed.

Lemma guard_not_positive (x : field) :
  x = None \/ (exists a, x = Some a /\ a <= 0) -> js_not x || js_le0 x = true.
Proof.
  intros H. destruct (js_not x || js_le0 x) eqn:E; [reflexivity |].
  apply guard_positive in E. destruct E as (a & Ha & Hp).
  destruct H as [H | (b & Hb & Hle)]; rewrite Ha in *; [discriminate |].
  injection Hb as <-. lra.
Qed.

Lemma Math_sqrt_nonneg (x : R) : 0 <= x -> Math_sqrt x = Fin (sqrt x).
Proof. intros H. unfold Math_sqrt. destruct (Rlt_dec x 0); [lra | reflexivity]. Qed.

Lemma Math_sqrt_neg (x : R) : x < 0 -> Math_sqrt x = NaN.
Proof. intros H. unfold Math_sqrt. destruct (Rlt_dec x 0); [reflexivity | lra]. Qed.

Section ForEach.

Context {A B : Type} (f : A -> nat -> list B).

Lemma forEach_from_app (l1 l2 : list A) (i : nat) :
  forEach_from f i (l1 ++ l2) =
  forEach_from f i l1 ++ forEach_from f (i + length l1) l2.
Proof.
  revert i. induction l1 as [| x t IH]; intros i; simpl.
  - now rewrite Nat.add_0_r.
  - rewrite IH, <- app_assoc. now replace (S i + length t)%nat with (i + S (length t))%nat by lia.
Qed.

(** What [forEach] does around one element: the elements before it, the
    element at its own index, the elements after it at theirs. *)
Lemma forEach_split (before after : list A) (x : A) :
  forEach f (before ++ x :: after) =
  forEach f before ++ f x (length before)
    ++ forEach_from f (S (length before)) after.
Proof.
  unfold forEach. rewrite forEach_from_app. simpl.
  now replace (S (length before)) with (S (0 + length before)) by lia.
Qed.

Lemma forEach_from_In (l : list A) (i k : nat) (x : A) (b : B) :
  nth_error l k = Some x -> In b (f x (i + k)) -> In b (forEach_from f i l).
Proof.
  revert i k. induction l as [| y t IH]; intros i k Hk Hb.
  - destruct k; discriminate.
  - simpl. apply in_or_app. destruct k as [| k]; simpl in Hk.
    + injection Hk as ->. left. now rewrite Nat.add_0_r in Hb.
    + right. apply (IH (S i) k Hk). now replace (S i + k)%nat with (i + S k)%nat by lia.
Qed.

Lemma forEach_In (l : list A) (k : nat) (x : A) (b : B) :
  nth_error l k = Some x -> In b (f x k) -> In b (forEach f l).
Proof. intros Hk Hb. apply (forEach_from_In l 0 k x b Hk Hb). Qed.

End ForEach.

End JSRealFacts.

(** ** OrbitalPaths: the shape of the curve *)

Module OrbitalPathsFacts.

Import JSReal JSRealFacts OrbitalPaths.
Local Open Scope R_scope.

Section Record_with_positive_axis.

Variables (o : OrbitData) (sr a : R).
Hypothesis Haxis : pl_orbsmax o = Some a.
Hypothesis Hpos : 0 < a.

Lemma scene_a_value : scene_a o sr = a * 3 + sr.
Proof. unfold scene_a. rewrite Haxis, js_or_truthy; [reflexivity | lra]. Qed.

Lemma not_skipped : skipped o = false.
Proof. unfold skipped. apply guard_positive. now exists a. Qed.

Lemma draw_orbit_line (index : nat) :
  draw_orbit o index sr = [mkLine (orbit_points o sr) (line_color index)].
Proof. unfold draw_orbit. now rewrite not_skipped. Qed.

End Record_with_positive_axis.

Lemma ecc_value (o : OrbitData) :
  ecc o = Rmin (match pl_orbeccen o with Some e => e | None => 0 end) 0.95.
Proof. unfold ecc. now rewrite js_or_zero_default. Qed.

Lemma ecc_le (o : OrbitData) : ecc o <= 0.95.
Proof. unfold ecc. apply Rmin_r. Qed.

Lemma ecc_lower (o : OrbitData) (lo : R) :
  lo <= 0 ->
  (forall e, pl_orbeccen o = Some e -> lo <= e) ->
  lo <= ecc o.
Proof.
  intros H0 He. rewrite ecc_value. apply Rmin_glb; [| lra].
  destruct (pl_orbeccen o) as [e |]; [now apply He | exact H0].
Qed.


(** With [-1 < ecc <= 0.95] the square root is taken of a positive number
    and [b] is a real. *)
Lemma scene_b_real (o : OrbitData) (sr : R) :
  -1 < ecc o ->
  0 < 1 - ecc o * ecc o /\
  scene_b o sr = Fin (scene_a o sr * sqrt (1 - ecc o * ecc o)).
Proof.
  intros Hlo. pose proof (ecc_le o) as Hhi.
  assert (0 < 1 - ecc o * ecc o) as Hp by nra.
  split; [exact Hp |].
  unfold scene_b. rewrite Math_sqrt_nonneg; [reflexivity | lra].
Qed.

Lemma planar_real (A B th : R) :
  planar A (Fin B) th = (Fin (A * cos th), Fin (B * sin th)).
Proof. reflexivity. Qed.

Lemma rotate_finite (x y argP incl : R) :
  finite3 (rotate (Fin x, Fin y) argP incl).
Proof. simpl. repeat split. Qed.

Lemma orbit_points_length (o : OrbitData) (sr : R) :
  length (orbit_points o sr) = 181%nat.
Proof. unfold orbit_points. now rewrite length_map, length_seq. Qed.

Lemma orbit_points_nth (o : OrbitData) (sr : R) (i : nat) :
  (i <= 180)%nat ->
  nth_error (orbit_points o sr) i = Some (orbit_point o sr (theta i)).
Proof.
  intros Hi. unfold orbit_points.
  rewrite nth_error_map, nth_error_seq.
  destruct (Nat.ltb_spec i 181) as [_ | H]; [reflexivity | lia].
Qed.





Lemma orbit_points_finite (o : OrbitData) (sr : R) :
  -1 < ecc o -> Forall finite3 (orbit_points o sr).
Proof.
  intros Hlo. destruct (scene_b_real o sr Hlo) as [_ Hb].
  unfold orbit_points. apply Forall_map, Forall_forall. intros i _.
  unfold orbit_point. rewrite Hb, planar_real. apply rotate_finite.
Qed.

(** C1, as amended: for a record with [a > 0] and [0 <= e < 1] the in-plane
    point of the curve at angle [theta] is the centre-based parametric
    point [x = A cos theta], [y = B sin theta], where [A = 3a + starRadius],
    [B = A sqrt(1 - ecc^2)] and [ecc = min(e, 0.95)]. The curve is symmetric
    about the origin (the point half a turn further is the opposite point),
    so the star at the origin sits at the centre of the ellipse. *)
Theorem ellipse_point_centre_based (o : OrbitData) (sr a th : R) :
  pl_orbsmax o = Some a -> 0 < a ->
  (forall e, pl_orbeccen o = Some e -> 0 <= e < 1) ->
  let A := a * 3 + sr in
  let B := A * sqrt (1 - ecc o * ecc o) in
  ecc o = Rmin (match pl_orbeccen o with Some e => e | None => 0 end) 0.95 /\
  planar (scene_a o sr) (scene_b o sr) th = (Fin (A * cos th), Fin (B * sin th)) /\
  planar (scene_a o sr) (scene_b o sr) (th + PI)
    = (Fin (- (A * cos th)), Fin (- (B * sin th))) /\
  orbit_point o sr th
    = rotate (Fin (A * cos th), Fin (B * sin th)) (argPeriastron o) (inclination o) /\
  (forall i, (i <= 180)%nat ->
     nth_error (orbit_points o sr) i = Some (orbit_point o sr (theta i))).
Proof.
  intros Haxis Hpos He A B.
  assert (-1 < ecc o) as Hlo.
  { apply Rlt_le_trans with 0; [lra |]. apply ecc_lower; [lra |]. intros e H. now apply He. }
  destruct (scene_b_real o sr Hlo) as [_ Hb].
  assert (planar (scene_a o sr) (scene_b o sr) th = (Fin (A * cos th), Fin (B * sin th))) as Hp.
  { rewrite Hb, planar_real, (scene_a_value o sr a Haxis Hpos). reflexivity. }
  split; [apply ecc_value |]. split; [exact Hp |]. split; [| split].
  - rewrite Hb, planar_real, (scene_a_value o sr a Haxis Hpos), neg_cos, neg_sin.
    subst A B. f_equal; f_equal; ring.
  - unfold orbit_point. now rewrite Hp.
  - intros i Hi. now apply orbit_points_nth.
Qed.

Lemma ellipse_point_centre_based_witness :
  planar (scene_a Samples.half_eccentric 0) (scene_b Samples.half_eccentric 0) 0
  = (Fin ((1 * 3 + 0) * cos 0),
     Fin ((1 * 3 + 0) * sqrt (1 - ecc Samples.half_eccentric * ecc Samples.half_eccentric)
          * sin 0)).
Proof.
  refine (proj1 (proj2 (ellipse_point_centre_based Samples.half_eccentric 0 1 0
                          eq_refl _ _))).
  - lra.
  - intros e H. injection H as <-. lra.
Defined.

(** C1, as stated, fails: at [a = 1], [e = 0.5], [theta = 0] the code's
    point is [(3, 0)], the focus-based formula gives [(1.5, 0)] for the
    scene-scaled axis and [(0.5, 0)] for the catalogue axis. *)
Lemma ellipse_point_not_focus_based :
  planar (scene_a Samples.half_eccentric 0) (scene_b Samples.half_eccentric 0) 0
    <> spec_point (scene_a Samples.half_eccentric 0) (ecc Samples.half_eccentric) 0
  /\ planar (scene_a Samples.half_eccentric 0) (scene_b Samples.half_eccentric 0) 0
    <> spec_point 1 (1 / 2) 0.
Proof.
  assert (ecc Samples.half_eccentric = 1 / 2) as He.
  { rewrite ecc_value. simpl. apply Rmin_left. lra. }
  assert (scene_a Samples.half_eccentric 0 = 3) as Ha.
  { rewrite (scene_a_value Samples.half_eccentric 0 1 eq_refl); lra. }
  unfold planar, spec_point, spec_ellipsePoint. rewrite He, Ha, cos_0.
  split; intros H; injection H as Hx _; lra.
Qed.








(** A negative star radius can make the scene axis, and with it [b],
    negative. *)
Lemma negative_star_radius_flips_b :
  exists b, scene_b Samples.half_eccentric (-10) = Fin b /\ b < 0.
Proof.
  assert (ecc Samples.half_eccentric = 1 / 2) as He.
  { rewrite ecc_value. simpl. apply Rmin_left. lra. }
  destruct (scene_b_real Samples.half_eccentric (-10)) as (Hp & Hb); [rewrite He; lra |].
  exists (scene_a Samples.half_eccentric (-10)
          * sqrt (1 - ecc Samples.half_eccentric * ecc Samples.half_eccentric)).
  split; [exact Hb |].
  rewrite (scene_a_value Samples.half_eccentric (-10) 1 eq_refl) by lra.
  pose proof (sqrt_lt_R0 _ Hp). nra.
Qed.

End OrbitalPathsFacts.

(** ** Which records are drawn *)

Module SceneFacts.

Import JSReal JSRealFacts.
Local Open Scope R_scope.

Lemma orbit_skipped (o : OrbitalPaths.OrbitData) (index : nat) (sr : R) :
  bad_axis (OrbitalPaths.pl_orbsmax o) -> OrbitalPaths.draw_orbit o index sr = [].
Proof.
  intros H. unfold OrbitalPaths.draw_orbit, OrbitalPaths.skipped.
  now rewrite guard_not_positive.
Qed.

Lemma orbit_drawn (o : OrbitalPaths.OrbitData) (index : nat) (sr : R) :
  good_axis (OrbitalPaths.pl_orbsmax o) ->
  OrbitalPaths.draw_orbit o index sr
  = [OrbitalPaths.mkLine (OrbitalPaths.orbit_points o sr) (OrbitalPaths.line_color index)].
Proof.
  intros (a & Ha & Hp). now apply OrbitalPathsFacts.draw_orbit_line with a.
Qed.

Section Star.

Variable generate3DOrbit : StarScene.OrbitParams -> list Vector3.
Variable getPeriapsisPosition : StarScene.OrbitParams -> Vector3.

Let add_planet := StarScene.add_planet generate3DOrbit getPeriapsisPosition.
Let build := StarScene.build generate3DOrbit getPeriapsisPosition.

Lemma planet_skipped (p : StarScene.PlanetRecord) (idx : nat) :
  bad_axis (StarScene.pl_orbsmax p) -> add_planet p idx = [].
Proof.
  intros H. unfold add_planet, StarScene.add_planet, StarScene.skipped.
  now rewrite guard_not_positive.
Qed.

Lemma planet_added (p : StarScene.PlanetRecord) (idx : nat) :
  good_axis (StarScene.pl_orbsmax p) ->
  add_planet p idx = StarScene.planet_objects generate3DOrbit getPeriapsisPosition p idx.
Proof.
  intros H. unfold add_planet, StarScene.add_planet, StarScene.skipped.
  apply guard_positive in H. now rewrite H.
Qed.



End Star.

(** C8: a record whose semi-major axis is missing, zero or negative adds
    nothing to the scene, in OrbitalPaths (no curve) and in StarRenderer (no
    orbit line, no body); the loop goes on with the records after it, each at
    its own index, and every record of the list with a positive axis has its
    curve (its orbit line and body) in the scene. *)
Theorem bad_axis_record_skipped
  (generate3DOrbit : StarScene.OrbitParams -> list Vector3)
  (getPeriapsisPosition : StarScene.OrbitParams -> Vector3)
  (o : OrbitalPaths.OrbitData) (before after : list OrbitalPaths.OrbitData) (sr : R)
  (p : StarScene.PlanetRecord) (pbefore pafter : list StarScene.PlanetRecord) :
  bad_axis (OrbitalPaths.pl_orbsmax o) ->
  bad_axis (StarScene.pl_orbsmax p) ->
  let draw_one := fun orbit index => OrbitalPaths.draw_orbit orbit index sr in
  let add_planet := StarScene.add_planet generate3DOrbit getPeriapsisPosition in
  let build := StarScene.build generate3DOrbit getPeriapsisPosition in
  (forall index, draw_one o index = []) /\
  OrbitalPaths.draw (before ++ o :: after) sr
    = OrbitalPaths.draw before sr ++ forEach_from draw_one (S (length before)) after /\
  (forall k q, nth_error (before ++ o :: after) k = Some q ->
     good_axis (OrbitalPaths.pl_orbsmax q) ->
     In (OrbitalPaths.mkLine (OrbitalPaths.orbit_points q sr) (OrbitalPaths.line_color k))
        (OrbitalPaths.draw (before ++ o :: after) sr)) /\
  (forall idx, add_planet p idx = []) /\
  build (pbefore ++ p :: pafter)
    = build pbefore ++ forEach_from add_planet (S (length pbefore)) pafter /\
  (forall k q, nth_error (pbefore ++ p :: pafter) k = Some q ->
     good_axis (StarScene.pl_orbsmax q) ->
     incl (StarScene.planet_objects generate3DOrbit getPeriapsisPosition q k)
          (build (pbefore ++ p :: pafter))).
Proof.
  intros Ho Hp draw_one add_planet build. subst draw_one add_planet build.
  split; [intros index; now apply orbit_skipped |].
  split.
  { unfold OrbitalPaths.draw. rewrite forEach_split. cbv beta.
    now rewrite orbit_skipped. }
  split.
  { intros k q Hk Hq. unfold OrbitalPaths.draw.
    apply forEach_In with (k := k) (x := q); [exact Hk |].
    rewrite orbit_drawn by exact Hq. now left. }
  split; [intros idx; now apply planet_skipped |].
  split.
  { unfold StarScene.build. rewrite forEach_split.
    now rewrite (planet_skipped _ _ p _ Hp). }
  intros k q Hk Hq b Hb. unfold StarScene.build.
  apply forEach_In with (k := k) (x := q); [exact Hk |].
  now rewrite (planet_added _ _ q k Hq).
Qed.

Lemma bad_axis_record_skipped_witness :
  OrbitalPaths.draw [Samples.half_eccentric; Samples.no_axis; Samples.hyperbolic] 1
  = OrbitalPaths.draw [Samples.half_eccentric] 1
    ++ forEach_from (fun orbit index => OrbitalPaths.draw_orbit orbit index 1) 2
         [Samples.hyperbolic].
Proof.
  assert (bad_axis (OrbitalPaths.pl_orbsmax Samples.no_axis)) as H1 by (now left).
  assert (bad_axis (StarScene.pl_orbsmax Samples.negative_axis_planet)) as H2.
  { right. exists (-1). split; [reflexivity | lra]. }
  pose proof (bad_axis_record_skipped (fun _ => []) (fun _ => mkVector3 (Fin 0) (Fin 0) (Fin 0))
                Samples.no_axis [Samples.half_eccentric] [Samples.hyperbolic] 1
                Samples.negative_axis_planet [] [] H1 H2) as T.
  apply T.
Defined.

(** C2, as amended: a record with [e >= 1] and a positive semi-major axis
    is not skipped. OrbitalPaths draws its curve of 181 points with the
    eccentricity clamped to 0.95; StarRenderer adds its orbit line and its
    body, handing the eccentricity on as it is; the records before and after
    it are processed at their own indices. *)
Theorem eccentric_record_clamped_not_skipped
  (generate3DOrbit : StarScene.OrbitParams -> list Vector3)
  (getPeriapsisPosition : StarScene.OrbitParams -> Vector3)
  (o : OrbitalPaths.OrbitData) (before after : list OrbitalPaths.OrbitData) (sr a e : R)
  (p : StarScene.PlanetRecord) (pbefore pafter : list StarScene.PlanetRecord) :
  OrbitalPaths.pl_orbsmax o = Some a -> OrbitalPaths.pl_orbeccen o = Some e ->
  StarScene.pl_orbsmax p = Some a -> StarScene.pl_orbeccen p = Some e ->
  0 < a -> 1 <= e ->
  let draw_one := fun orbit index => OrbitalPaths.draw_orbit orbit index sr in
  let add_planet := StarScene.add_planet generate3DOrbit getPeriapsisPosition in
  let build := StarScene.build generate3DOrbit getPeriapsisPosition in
  OrbitalPaths.ecc o = 0.95 /\
  OrbitalPaths.draw (before ++ o :: after) sr
    = OrbitalPaths.draw before sr
      ++ [OrbitalPaths.mkLine (OrbitalPaths.orbit_points o sr)
                              (OrbitalPaths.line_color (length before))]
      ++ forEach_from draw_one (S (length before)) after /\
  length (OrbitalPaths.orbit_points o sr) = 181%nat /\
  StarScene.op_orbeccen (StarScene.orbit_params p) = e /\
  build (pbefore ++ p :: pafter)
    = build pbefore
      ++ StarScene.planet_objects generate3DOrbit getPeriapsisPosition p (length pbefore)
      ++ forEach_from add_planet (S (length pbefore)) pafter.
Proof.
  intros Hoa Hoe Hpa Hpe Ha He draw_one add_planet build.
  subst draw_one add_planet build.
  split.
  { rewrite OrbitalPathsFacts.ecc_value, Hoe. apply Rmin_right. lra. }
  split.
  { unfold OrbitalPaths.draw. rewrite forEach_split. cbv beta.
    now rewrite (OrbitalPathsFacts.draw_orbit_line o sr a Hoa Ha). }
  split; [apply OrbitalPathsFacts.orbit_points_length |].
  split.
  { unfold StarScene.orbit_params. simpl. rewrite Hpe. apply js_or_truthy. lra. }
  unfold StarScene.build. rewrite forEach_split.
  rewrite (planet_added generate3DOrbit getPeriapsisPosition p (length pbefore));
    [reflexivity | now exists a].
Qed.

Lemma eccentric_record_clamped_not_skipped_witness :
  OrbitalPaths.ecc Samples.hyperbolic = 0.95.
Proof.
  assert (0 < 1) as H1 by lra. assert (1 <= 1.2) as H2 by lra.
  pose proof (eccentric_record_clamped_not_skipped
                (fun _ => []) (fun _ => mkVector3 (Fin 0) (Fin 0) (Fin 0))
                Samples.hyperbolic [] [] 1 1 1.2
                Samples.hyperbolic_planet [] [] eq_refl eq_refl eq_refl eq_refl H1 H2) as T.
  apply T.
Defined.

(** C2, as stated, fails: the record with [e = 1.2] gets one curve in
    OrbitalPaths, and one orbit line and one body in StarRenderer, whatever
    the orbit functions return. *)
Lemma eccentric_record_is_rendered :
  OrbitalPaths.draw [Samples.hyperbolic] 1
    = [OrbitalPaths.mkLine (OrbitalPaths.orbit_points Samples.hyperbolic 1)
                           (OrbitalPaths.line_color 0)]
  /\ length (OrbitalPaths.draw [Samples.hyperbolic] 1) = 1%nat
  /\ (forall generate3DOrbit getPeriapsisPosition,
        length (StarScene.orbitLines generate3DOrbit getPeriapsisPosition
                  [Samples.hyperbolic_planet]) = 1%nat
        /\ length (StarScene.planetMeshes generate3DOrbit getPeriapsisPosition
                     [Samples.hyperbolic_planet]) = 1%nat).
Proof.
  assert (OrbitalPaths.draw [Samples.hyperbolic] 1
          = [OrbitalPaths.mkLine (OrbitalPaths.orbit_points Samples.hyperbolic 1)
                                 (OrbitalPaths.line_color 0)]) as H.
  { unfold OrbitalPaths.draw, forEach. simpl forEach_from.
    rewrite (OrbitalPathsFacts.draw_orbit_line Samples.hyperbolic 1 1 eq_refl); [reflexivity | lra]. }
  split; [exact H |]. split; [now rewrite H |].
  intros g q.
  assert (good_axis (StarScene.pl_orbsmax Samples.hyperbolic_planet)) as Hg.
  { exists 1. split; [reflexivity | lra]. }
  unfold StarScene.orbitLines, StarScene.planetMeshes, StarScene.build, forEach.
  simpl forEach_from. rewrite (planet_added g q _ 0 Hg). split; reflexivity.
Qed.


End SceneFacts.

(** ** The solar overview: camera transitions *)

Module SolarCameraFacts.

Import Floats JSFloat SolarSystemRenderer.
Local Open Scope float_scope.
Set Warnings "-inexact-float".

(** What a callback that goes on leaves behind. *)
Lemma run_callback_continue (a : Anim) (s : State) :
  (progress a + increment (kind a) <? 1) = true ->
  let p := progress a + increment (kind a) in
  run_callback a s
  = requestAnimationFrame_ref (with_progress a p)
      (set_pose (lerpVectors (startPos a) (newCameraPos a) p)
                (lerpVectors (startTarget a) (endTarget a) p) s).
Proof.
  intros H p. subst p. unfold run_callback.
  destruct (kind a) as [| sys |]; simpl in H |- *; now rewrite H.
Qed.

Lemma run_callback_camera_done (a : Anim) (s : State) :
  kind a = AnimateCamera ->
  (progress a + 0.04 <? 1) = false ->
  run_callback a s
  = console_log CameraAnimationComplete
      (set_frames (pending s) (next_handle s) None
         (setIsTransitioning false (set_pose (newCameraPos a) (endTarget a) s))).
Proof. intros Hk H. unfold run_callback. rewrite Hk. now rewrite H. Qed.

Lemma run_callback_transition_done (a : Anim) (s : State) (sys : ExoplanetSystem) :
  kind a = AnimateTransition sys ->
  (progress a + 1 / 60 <? 1) = false ->
  run_callback a s
  = handleSystemClick sys
      (set_frames (pending s) (next_handle s) None
         (console_log TransitionCompleteSwitchingView s)).
Proof. intros Hk H. unfold run_callback. rewrite Hk. now rewrite H. Qed.

Lemma run_callback_back_done (a : Anim) (s : State) :
  kind a = AnimateBack ->
  (progress a + 0.04 <? 1) = false ->
  run_callback a s
  = set_frames (pending s) (next_handle s) None
      (setIsTransitioning false (set_pose (newCameraPos a) (endTarget a) s)).
Proof. intros Hk H. unfold run_callback. rewrite Hk. now rewrite H. Qed.

(** A callback run when nothing else waits leaves at most one waiting. *)
Lemma run_callback_one_live (a : Anim) (s : State) :
  pending s = [] -> one_live (run_callback a s).
Proof.
  intros Hp.
  destruct (progress a + increment (kind a) <? 1) eqn:E.
  - rewrite run_callback_continue by exact E. right.
    exists (next_handle s), (with_progress a (progress a + increment (kind a))).
    simpl. now rewrite Hp.
  - destruct (kind a) as [| sys |] eqn:Hk; simpl in E.
    + rewrite run_callback_camera_done by assumption. left. simpl. now rewrite Hp.
    + rewrite (run_callback_transition_done a s sys) by assumption.
      left. simpl. now rewrite Hp.
    + rewrite run_callback_back_done by assumption. left. simpl. now rewrite Hp.
Qed.

Lemma cancel_existing_clears (s : State) :
  one_live s -> pending (cancel_existing s) = [].
Proof.
  unfold cancel_existing. intros [(Hp & Hr) | (h & a & Hp & Hr)]; rewrite Hr.
  - exact Hp.
  - simpl. rewrite Hp. simpl. now rewrite Nat.eqb_refl.
Qed.

Lemma frame_one_live (s : State) : one_live s -> one_live (frame s).
Proof.
  unfold frame. intros [(Hp & Hr) | (h & a & Hp & Hr)]; rewrite Hp; simpl.
  - left. simpl. now split.
  - now apply run_callback_one_live.
Qed.

Lemma focusPlanet_one_live (n : string) (pos : Vec3) (r : float) (s : State) :
  one_live s -> one_live (focusPlanet n pos r s).
Proof.
  intros H. unfold focusPlanet. apply run_callback_one_live.
  now apply cancel_existing_clears.
Qed.

Lemma onClick_one_live (h : Hits) (s : State) : one_live s -> one_live (onClick h s).
Proof.
  intros H. unfold onClick.
  destruct (hitboxIntersects h) as [| i ?]; [| now apply focusPlanet_one_live].
  destruct (planetIntersects h) as [| i ?]; [| now apply focusPlanet_one_live].
  destruct (systemIntersects h) as [| i ?]; [exact H |].
  destruct (nth_error (systemData s) (systemIndex (object i))) as [sys |]; [| exact H].
  destruct (nth_error (systemMarkers s) (systemIndex (object i))) as [m |]; [| exact H].
  apply run_callback_one_live. now apply cancel_existing_clears.
Qed.

Lemma onMouseMove_frames (h : Hits) (s : State) :
  pending (onMouseMove h s) = pending s /\
  animationFrameRef (onMouseMove h s) = animationFrameRef s /\
  currentView (onMouseMove h s) = currentView s /\
  camera_position (onMouseMove h s) = camera_position s /\
  controls_target (onMouseMove h s) = controls_target s.
Proof.
  unfold onMouseMove.
  destruct (hitboxIntersects h); [| now simpl].
  destruct (orbitIntersects h); [| now simpl].
  destruct (systemIntersects h) as [| i ?]; [now simpl |].
  simpl. destruct (nth_error (systemData s) (systemIndex (object i))); now simpl.
Qed.

(** At most one transition is live in the solar overview, whatever the
    user does. *)
Lemma step_one_live (s : State) (e : Event) : one_live s -> one_live (step s e).
Proof.
  intros H. unfold step. destruct (currentView s); [| exact H].
  destruct e as [| h | h |].
  - now apply frame_one_live.
  - now apply onClick_one_live.
  - destruct (onMouseMove_frames h s) as (Hp & Hr & _).
    unfold one_live. rewrite Hp, Hr. exact H.
  - unfold handleBackToSystem. apply run_callback_one_live.
    now apply cancel_existing_clears.
Qed.

Lemma run_one_live (es : list Event) (s : State) : one_live s -> one_live (run s es).
Proof.
  revert s. induction es as [| e es IH]; intros s H; simpl; [exact H |].
  apply IH. now apply step_one_live.
Qed.

(** *** A transition in flight, frame by frame *)

Lemma frame_in_flight (a : Anim) (s : State) :
  in_flight a s ->
  frame s = run_callback a (set_frames [] (next_handle s) (animationFrameRef s) s).
Proof. intros (_ & h & Hp & _). unfold frame. now rewrite Hp. Qed.

(** A frame on which the progress stays below 1: the pose is interpolated
    and the callback waits again; nothing else changes. *)
Lemma frame_continue (a : Anim) (s : State) :
  in_flight a s ->
  (progress a + increment (kind a) <? 1) = true ->
  let p := progress a + increment (kind a) in
  in_flight (with_progress a p) (frame s) /\
  camera_position (frame s) = lerpVectors (startPos a) (newCameraPos a) p /\
  controls_target (frame s) = lerpVectors (startTarget a) (endTarget a) p /\
  console (frame s) = console s /\
  selectedSystem (frame s) = selectedSystem s /\
  isTransitioning (frame s) = isTransitioning s.
Proof.
  intros Hf Hlt p. rewrite (frame_in_flight a s Hf).
  rewrite run_callback_continue by exact Hlt. fold p.
  destruct Hf as (Hv & _). unfold in_flight. simpl.
  repeat split; try assumption. now exists (next_handle s).
Qed.

(** The frame on which [animateCamera] reaches 1: the callback writes the
    end pose itself, the completion runs, nothing waits any more. *)
Lemma frame_camera_done (a : Anim) (s : State) :
  in_flight a s -> kind a = AnimateCamera ->
  (progress a + 0.04 <? 1) = false ->
  camera_position (frame s) = newCameraPos a /\
  controls_target (frame s) = endTarget a /\
  pending (frame s) = [] /\
  animationFrameRef (frame s) = None /\
  isTransitioning (frame s) = false /\
  console (frame s) = CameraAnimationComplete :: console s /\
  currentView (frame s) = solar.
Proof.
  intros Hf Hk Hge. rewrite (frame_in_flight a s Hf).
  rewrite run_callback_camera_done by assumption.
  destruct Hf as (Hv & _). simpl. repeat split. exact Hv.
Qed.

(** The frame on which the callback of [handleBackToSystem] reaches 1: as
    for [animateCamera], but nothing is logged. *)
Lemma frame_back_done (a : Anim) (s : State) :
  in_flight a s -> kind a = AnimateBack ->
  (progress a + 0.04 <? 1) = false ->
  pending (frame s) = [] /\
  animationFrameRef (frame s) = None /\
  isTransitioning (frame s) = false /\
  console (frame s) = console s /\
  focusedPlanet (frame s) = focusedPlanet s /\
  selectedSystem (frame s) = selectedSystem s /\
  currentView (frame s) = solar.
Proof.
  intros Hf Hk Hge. rewrite (frame_in_flight a s Hf).
  rewrite run_callback_back_done by assumption.
  destruct Hf as (Hv & _). simpl. repeat split. exact Hv.
Qed.

(** The frame on which [animateTransition] reaches 1: the view is switched;
    the camera stays where the frame before left it. *)
Lemma frame_transition_done (a : Anim) (s : State) (sys : ExoplanetSystem) :
  in_flight a s -> kind a = AnimateTransition sys ->
  (progress a + 1 / 60 <? 1) = false ->
  currentView (frame s) = exoplanet /\
  selectedSystem (frame s) = Some sys /\
  camera_position (frame s) = camera_position s /\
  controls_target (frame s) = controls_target s /\
  pending (frame s) = [] /\
  animationFrameRef (frame s) = None /\
  console (frame s) = TransitionCompleteSwitchingView :: console s.
Proof.
  intros Hf Hk Hge. rewrite (frame_in_flight a s Hf).
  rewrite (run_callback_transition_done a _ sys) by assumption.
  simpl. repeat split.
Qed.

Lemma run_app (es1 es2 : list Event) (s : State) :
  run s (es1 ++ es2) = run (run s es1) es2.
Proof. unfold run. apply fold_left_app. Qed.

Lemma run_frames_snoc (n : nat) (s : State) :
  run s (repeat Frame (S n)) = step (run s (repeat Frame n)) Frame.
Proof.
  replace (S n) with (n + 1)%nat by lia. now rewrite repeat_app, run_app.
Qed.

(** [n] frames of a transition whose progress stays below 1 throughout. *)
Lemma frames_continue (k : AnimKind) (sp ep st et : Vec3) (n j : nat) (s : State) :
  in_flight (mkAnim k sp ep st et (prog (increment k) (S j))) s ->
  (forall i, (S j < i <= S j + n)%nat -> (prog (increment k) i <? 1) = true) ->
  let s' := run s (repeat Frame n) in
  in_flight (mkAnim k sp ep st et (prog (increment k) (S j + n))) s' /\
  console s' = console s /\
  selectedSystem s' = selectedSystem s /\
  (n <> 0%nat ->
   camera_position s' = lerpVectors sp ep (prog (increment k) (S j + n)) /\
   controls_target s' = lerpVectors st et (prog (increment k) (S j + n))).
Proof.
  induction n as [| n IH]; intros Hf Hlt s'.
  - subst s'. simpl run. rewrite Nat.add_0_r. split; [exact Hf |]. repeat split; easy.
  - subst s'. rewrite run_frames_snoc.
    destruct IH as (Hf' & Hc & Hs & _); [exact Hf | intros i Hi; apply Hlt; lia |].
    set (s1 := run s (repeat Frame n)) in *.
    assert (step s1 Frame = frame s1) as ->.
    { unfold step. destruct Hf' as (Hv & _). now rewrite Hv. }
    assert ((prog (increment k) (S j + n) + increment k <? 1) = true) as Hlt'.
    { apply (Hlt (S (S j + n))). lia. }
    destruct (frame_continue _ s1 Hf' Hlt') as (Hf2 & Hcam & Htgt & Hcon & Hsel & _).
    replace (S j + S n)%nat with (S (S j + n)) by lia.
    repeat split.
    + apply Hf2.
    + apply Hf2.
    + now rewrite Hcon.
    + now rewrite Hsel.
    + exact Hcam.
    + exact Htgt.
Qed.

(** The progress of [animateCamera] is below 1 on its first 24 calls and
    not on the 25th; that of [animateTransition] on its first 59 and not
    on the 60th. *)
Lemma camera_progress :
  (forall i, (1 <= i <= 24)%nat -> (prog 0.04 i <? 1) = true) /\
  (prog 0.04 24 + 0.04 <? 1) = false.
Proof.
  split; [| reflexivity]. intros i Hi.
  assert (forallb (fun i => prog 0.04 i <? 1) (seq 1 24) = true) as H by reflexivity.
  rewrite forallb_forall in H. apply H, in_seq. lia.
Qed.

Lemma transition_progress :
  (forall i, (1 <= i <= 59)%nat -> (prog (1 / 60) i <? 1) = true) /\
  (prog (1 / 60) 59 + 1 / 60 <? 1) = false.
Proof.
  split; [| reflexivity]. intros i Hi.
  assert (forallb (fun i => prog (1 / 60) i <? 1) (seq 1 59) = true) as H by reflexivity.
  rewrite forallb_forall in H. apply H, in_seq. lia.
Qed.

(** *** Starting a transition *)

(** The first call of a callback, made by the handler itself: from
    progress 0 it always goes on. *)
Lemma start_in_flight (k : AnimKind) (sp ep st et : Vec3) (s : State) :
  pending s = [] -> currentView s = solar ->
  let a := mkAnim k sp ep st et 0 in
  let s' := run_callback a s in
  in_flight (mkAnim k sp ep st et (prog (increment k) 1)) s' /\
  camera_position s' = lerpVectors sp ep (prog (increment k) 1) /\
  controls_target s' = lerpVectors st et (prog (increment k) 1) /\
  console s' = console s /\
  selectedSystem s' = selectedSystem s.
Proof.
  intros Hp Hv a s'.
  assert ((progress a + increment (kind a) <? 1) = true) as Hlt
      by (destruct k; reflexivity).
  subst s'. rewrite run_callback_continue by exact Hlt.
  unfold in_flight. simpl. rewrite Hp. simpl.
  repeat split; try assumption. now exists (next_handle s).
Qed.

(** [focusPlanet] while another transition is in flight: the waiting
    callback is cancelled, and the new transition starts from the pose the
    camera has at that moment. *)
Lemma focusPlanet_supersedes (n : string) (pos : Vec3) (r : float) (s : State) :
  one_live s -> currentView s = solar ->
  let d := Math_max (r * 8) 5 in
  let a := mkAnim AnimateCamera (camera_position s)
                  (mkVec3 (x pos + d) (y pos + d * 0.5) (z pos + d))
                  (controls_target s) pos (prog 0.04 1) in
  in_flight a (focusPlanet n pos r s) /\
  console (focusPlanet n pos r s) = console s /\
  focusedPlanet (focusPlanet n pos r s) = Some n.
Proof.
  intros H1 Hv d a. unfold focusPlanet. fold d.
  set (s1 := cancel_existing _).
  assert (pending s1 = []) as Hp by (subst s1; now apply cancel_existing_clears).
  assert (currentView s1 = solar /\ console s1 = console s
          /\ focusedPlanet s1 = Some n) as (Hv1 & Hc1 & Hf1).
  { subst s1. unfold cancel_existing. simpl.
    destruct (animationFrameRef s); simpl; now repeat split. }
  clearbody s1.
  rewrite run_callback_continue by reflexivity.
  unfold in_flight. simpl. rewrite Hp. simpl.
  repeat split; try assumption. now exists (next_handle s1).
Qed.

(** The transition of [focusPlanet], left alone, ends on its 25th call
    (24 frames after the click): that call writes the end pose itself and
    logs the one completion message. *)
Lemma focusPlanet_completes (a : Anim) (s : State) :
  in_flight a s -> kind a = AnimateCamera -> progress a = prog 0.04 1 ->
  let s' := run s (repeat Frame 24) in
  camera_position s' = newCameraPos a /\
  controls_target s' = endTarget a /\
  pending s' = [] /\ animationFrameRef s' = None /\
  isTransitioning s' = false /\
  console s' = CameraAnimationComplete :: console s /\
  (forall n, (n < 24)%nat ->
     console (run s (repeat Frame n)) = console s /\
     exists a', in_flight a' (run s (repeat Frame n))).
Proof.
  intros Hf Hk Hp s'.
  destruct a as [k sp ep st et p]. simpl in Hk, Hp. subst k p.
  destruct camera_progress as (Hlt & Hge).
  assert (forall n, (n < 24)%nat ->
            in_flight (mkAnim AnimateCamera sp ep st et (prog 0.04 (1 + n)))
                      (run s (repeat Frame n))
            /\ console (run s (repeat Frame n)) = console s) as Hrun.
  { intros n Hn.
    destruct (frames_continue AnimateCamera sp ep st et n 0 s Hf) as (H1 & H2 & _).
    - intros i Hi. apply Hlt. lia.
    - now split. }
  split; [| split; [| split; [| split; [| split; [| split]]]]];
    try (subst s'; rewrite run_frames_snoc;
         destruct (Hrun 23%nat ltac:(lia)) as (Hf23 & Hc23);
         set (s1 := run s (repeat Frame 23)) in *;
         assert (step s1 Frame = frame s1) as -> by
             (unfold step; destruct Hf23 as (Hv & _); now rewrite Hv);
         destruct (frame_camera_done _ s1 Hf23 eq_refl Hge)
           as (E1 & E2 & E3 & E4 & E5 & E6 & E7)).
  - exact E1.
  - exact E2.
  - exact E3.
  - exact E4.
  - exact E5.
  - now rewrite E6, Hc23.
  - intros n Hn. destruct (Hrun n Hn) as (H1 & H2). split; [exact H2 | eauto].
Qed.

(** *** The view switch *)

Lemma first_call_view (a : Anim) (s : State) :
  progress a = 0 ->
  currentView (run_callback a s) = currentView s /\
  selectedSystem (run_callback a s) = selectedSystem s.
Proof.
  intros Hp. destruct a as [k sp ep st et p]. simpl in Hp. subst p.
  rewrite run_callback_continue by (destruct k; reflexivity). now simpl.
Qed.

Lemma cancel_existing_view (s : State) :
  currentView (cancel_existing s) = currentView s /\
  selectedSystem (cancel_existing s) = selectedSystem s /\
  camera_position (cancel_existing s) = camera_position s /\
  controls_target (cancel_existing s) = controls_target s /\
  console (cancel_existing s) = console s.
Proof. unfold cancel_existing. destruct (animationFrameRef s); now simpl. Qed.

(** The first call of a callback does not touch the view. *)
Ltac first_call :=
  match goal with
  | |- context [run_callback ?a ?s1] =>
      rewrite (proj1 (first_call_view a s1 eq_refl)),
              (proj1 (cancel_existing_view _))
  end.

(** No handler switches the view by itself. *)
Lemma handlers_keep_view (s : State) (e : Event) :
  e <> Frame -> currentView s = solar -> currentView (step s e) = solar.
Proof.
  intros He Hv. unfold step. rewrite Hv.
  destruct e as [| h | h |]; [contradiction | | |].
  - unfold onClick.
    destruct (hitboxIntersects h) as [| i ?].
    2:{ unfold focusPlanet. first_call. exact Hv. }
    destruct (planetIntersects h) as [| i ?].
    2:{ unfold focusPlanet. first_call. exact Hv. }
    destruct (systemIntersects h) as [| i ?]; [exact Hv |].
    destruct (nth_error (systemData s) (systemIndex (object i))) as [sys |]; [| exact Hv].
    destruct (nth_error (systemMarkers s) (systemIndex (object i))) as [m |]; [| exact Hv].
    first_call. exact Hv.
  - now rewrite (proj1 (proj2 (proj2 (onMouseMove_frames h s)))).
  - unfold handleBackToSystem. first_call. exact Hv.
Qed.

(** A click whose first hit list is the markers' starts
    [animateTransition] towards the nearest marker's system. *)
Lemma marker_click_starts (h : Hits) (s : State) (i : Intersection MarkerObj)
  (rest : list (Intersection MarkerObj)) (sys : ExoplanetSystem) (m : MarkerObj) :
  hitboxIntersects h = [] -> planetIntersects h = [] ->
  systemIntersects h = i :: rest ->
  nth_error (systemData s) (systemIndex (object i)) = Some sys ->
  nth_error (systemMarkers s) (systemIndex (object i)) = Some m ->
  let markerPos := marker_position m in
  onClick h s
  = run_callback
      (mkAnim (AnimateTransition sys) (camera_position s)
              (mkVec3 (x markerPos + 50) (y markerPos + 50 * 0.5) (z markerPos + 50))
              (controls_target s) markerPos 0)
      (cancel_existing (setIsTransitioning true s)).
Proof.
  intros H1 H2 H3 H4 H5 markerPos. unfold onClick.
  rewrite H1, H2, H3, H4, H5.
  now rewrite (proj1 (proj2 (proj2 (cancel_existing_view _)))),
              (proj1 (proj2 (proj2 (proj2 (cancel_existing_view _))))).
Qed.

(** C7: in the solar overview (with at most one callback waiting, as is
    always the case), the only step that switches the view is a frame on
    which the waiting [animateTransition] finds its progress at 1 or above;
    no click, pointer move or earlier frame does. The switch selects the
    transition's system, leaves nothing waiting and does not move the
    camera. After a click on a marker, the view is still the solar one on
    each of the next 58 frames and is switched on the 59th (the 60th call). *)
Theorem view_switch_only_on_completion (s : State) :
  one_live s -> currentView s = solar ->
  (forall e, currentView (step s e) = exoplanet ->
     e = Frame /\
     exists h a sys,
       pending s = [(h, a)] /\ kind a = AnimateTransition sys /\
       (progress a + 1 / 60 <? 1) = false /\
       selectedSystem (step s e) = Some sys /\
       pending (step s e) = [] /\
       camera_position (step s e) = camera_position s)
  /\
  (forall h i rest sys m,
     hitboxIntersects h = [] -> planetIntersects h = [] ->
     systemIntersects h = i :: rest ->
     nth_error (systemData s) (systemIndex (object i)) = Some sys ->
     nth_error (systemMarkers s) (systemIndex (object i)) = Some m ->
     (forall n, (n < 59)%nat ->
        currentView (run s (Click h :: repeat Frame n)) = solar /\
        selectedSystem (run s (Click h :: repeat Frame n)) = selectedSystem s) /\
     currentView (run s (Click h :: repeat Frame 59)) = exoplanet /\
     selectedSystem (run s (Click h :: repeat Frame 59)) = Some sys /\
     pending (run s (Click h :: repeat Frame 59)) = []).
Proof.
  intros H1 Hv. split.
  - intros e He.
    destruct e as [| h | h |];
      try (rewrite handlers_keep_view in He by (assumption || discriminate);
           discriminate).
    split; [reflexivity |].
    unfold step in He |- *. rewrite Hv in He |- *.
    destruct H1 as [(Hp & Hr) | (h & a & Hp & Hr)].
    + unfold frame in He. rewrite Hp in He. simpl in He. congruence.
    + assert (in_flight a s) as Hf by (split; [exact Hv | now exists h]).
      destruct (progress a + increment (kind a) <? 1) eqn:E.
      * destruct (frame_continue a s Hf E) as ((Hv' & _) & _). congruence.
      * destruct (kind a) as [| sys |] eqn:Hk; simpl in E.
        -- destruct (frame_camera_done a s Hf Hk E) as (_ & _ & _ & _ & _ & _ & Hv').
           congruence.
        -- destruct (frame_transition_done a s sys Hf Hk E)
             as (_ & Hs & Hc & _ & Hp' & _).
           exists h, a, sys. repeat split; assumption.
        -- destruct (frame_back_done a s Hf Hk E) as (_ & _ & _ & _ & _ & _ & Hv').
           congruence.
  - intros h i rest sys m Hh Hpl Hs Hd Hm.
    assert (run s [Click h] = onClick h s) as Hclick.
    { unfold run. simpl. unfold step. now rewrite Hv. }
    set (markerPos := marker_position m).
    set (ep := mkVec3 (x markerPos + 50) (y markerPos + 50 * 0.5) (z markerPos + 50)).
    assert (in_flight (mkAnim (AnimateTransition sys) (camera_position s) ep
                              (controls_target s) markerPos (prog (1 / 60) 1))
                      (onClick h s)
            /\ selectedSystem (onClick h s) = selectedSystem s) as (Hf & Hsel).
    { rewrite (marker_click_starts h s i rest sys m Hh Hpl Hs Hd Hm).
      fold markerPos. fold ep.
      set (s1 := cancel_existing _).
      assert (pending s1 = []) as Hp by (subst s1; now apply cancel_existing_clears).
      assert (currentView s1 = solar) as Hv1
          by (subst s1; now rewrite (proj1 (cancel_existing_view _))).
      assert (selectedSystem s1 = selectedSystem s) as Hs1
          by (subst s1; now rewrite (proj1 (proj2 (cancel_existing_view _)))).
      destruct (start_in_flight (AnimateTransition sys) (camera_position s) ep
                  (controls_target s) markerPos s1 Hp Hv1) as (F & _ & _ & _ & S1).
      split; [exact F | now rewrite S1]. }
    destruct transition_progress as (Hlt & Hge).
    assert (forall n, (n < 59)%nat ->
              in_flight (mkAnim (AnimateTransition sys) (camera_position s) ep
                                (controls_target s) markerPos (prog (1 / 60) (1 + n)))
                        (run (onClick h s) (repeat Frame n))
              /\ selectedSystem (run (onClick h s) (repeat Frame n)) = selectedSystem s)
      as Hrun.
    { intros n Hn.
      destruct (frames_continue (AnimateTransition sys) (camera_position s) ep
                  (controls_target s) markerPos n 0 (onClick h s) Hf)
        as (F & _ & S1 & _).
      - intros k Hk. apply Hlt. lia.
      - split; [exact F | now rewrite S1]. }
    assert (forall n, run s (Click h :: repeat Frame n)
                      = run (onClick h s) (repeat Frame n)) as Hcons.
    { intros n. change (Click h :: repeat Frame n) with ([Click h] ++ repeat Frame n).
      now rewrite run_app, Hclick. }
    split.
    { intros n Hn. rewrite Hcons. destruct (Hrun n Hn) as ((Hv' & _) & S1).
      now split. }
    rewrite Hcons, run_frames_snoc.
    destruct (Hrun 58%nat ltac:(lia)) as (F58 & _).
    set (s58 := run (onClick h s) (repeat Frame 58)) in *.
    assert (step s58 Frame = frame s58) as ->
        by (unfold step; destruct F58 as (Hv' & _); now rewrite Hv').
    destruct (frame_transition_done _ s58 sys F58 eq_refl Hge)
      as (E1 & E2 & _ & _ & E3 & _).
    now repeat split.
Qed.

Lemma view_switch_only_on_completion_witness :
  currentView (run SolarSamples.initial
                 (Click SolarSamples.on_marker :: repeat Frame 59)) = exoplanet.
Proof.
  assert (one_live SolarSamples.initial) as H1 by (left; split; reflexivity).
  pose proof (view_switch_only_on_completion SolarSamples.initial H1 eq_refl) as T.
  destruct T as (_ & T).
  apply (T SolarSamples.on_marker
           (mkIntersection 700 SolarSamples.marker0) []
           SolarSamples.kepler SolarSamples.marker0
           eq_refl eq_refl eq_refl eq_refl eq_refl).
Defined.

End SolarCameraFacts.

(** ** The solar overview: picking *)

Module PickFacts.

Import Floats JSFloat SolarSystemRenderer.
Local Open Scope float_scope.
Set Warnings "-inexact-float".

Lemma ascending_head {A : Type} (i : Intersection A) (rest : list (Intersection A)) :
  ascending (i :: rest) -> Forall (fun j => (distance i <=? distance j) = true) rest.
Proof. intros (H & _). exact H. Qed.

(** C5, as amended. A click acts on the nearest intersection of the first
    non-empty list among hit spheres, planet meshes and system markers
    (orbit lines are not tested); a pointer move on that of the first
    non-empty list among hit spheres, orbit lines and system markers (planet
    meshes are not tested). A hit sphere under the pointer wins over every
    orbit line: the click focuses the planet, the move shows the pointer
    cursor and reports no orbit. With no match a click changes nothing but
    the log, and a move clears the hovered orbit and the hovered system. *)
Theorem pick_priority (h : Hits) (s : State) :
  ascending (hitboxIntersects h) -> ascending (planetIntersects h) ->
  ascending (orbitIntersects h) -> ascending (systemIntersects h) ->
  (forall i rest, hitboxIntersects h = i :: rest ->
     Forall (fun j => (distance i <=? distance j) = true) rest /\
     onClick h s = focusPlanet (hitbox_name (object i))
                     (planet_position (parentPlanet (object i)))
                     (hitbox_radius (object i)) s /\
     onMouseMove h s = set_hover (hoveredSystem s) (hoveredOrbit s) pointer s)
  /\
  (forall i rest, hitboxIntersects h = [] -> planetIntersects h = i :: rest ->
     Forall (fun j => (distance i <=? distance j) = true) rest /\
     onClick h s = focusPlanet (planet_name (object i)) (planet_position (object i))
                     (planet_radius (object i)) s)
  /\
  (forall i rest sys m,
     hitboxIntersects h = [] -> planetIntersects h = [] ->
     systemIntersects h = i :: rest ->
     nth_error (systemData s) (systemIndex (object i)) = Some sys ->
     nth_error (systemMarkers s) (systemIndex (object i)) = Some m ->
     Forall (fun j => (distance i <=? distance j) = true) rest /\
     onClick h s
     = run_callback
         (mkAnim (AnimateTransition sys) (camera_position s)
            (mkVec3 (x (marker_position m) + 50) (y (marker_position m) + 50 * 0.5)
                    (z (marker_position m) + 50))
            (controls_target s) (marker_position m) 0)
         (cancel_existing (setIsTransitioning true s)))
  /\
  (hitboxIntersects h = [] -> planetIntersects h = [] -> systemIntersects h = [] ->
     onClick h s = console_log NoObjectClicked s)
  /\
  (forall i rest, hitboxIntersects h = [] -> orbitIntersects h = i :: rest ->
     Forall (fun j => (distance i <=? distance j) = true) rest /\
     onMouseMove h s
     = set_hover (hoveredSystem s) (Some (planetName (object i))) pointer s)
  /\
  (forall i rest sys,
     hitboxIntersects h = [] -> orbitIntersects h = [] ->
     systemIntersects h = i :: rest ->
     nth_error (systemData s) (systemIndex (object i)) = Some sys ->
     Forall (fun j => (distance i <=? distance j) = true) rest /\
     onMouseMove h s = set_hover (Some sys) None pointer s)
  /\
  (hitboxIntersects h = [] -> orbitIntersects h = [] -> systemIntersects h = [] ->
     onMouseMove h s = set_hover None None default s).
Proof.
  intros Ah Ap Ao As.
  split; [| split; [| split; [| split; [| split; [| split]]]]].
  - intros i rest E. rewrite E in Ah. split; [now apply ascending_head |].
    unfold onClick, onMouseMove. now rewrite E.
  - intros i rest E1 E2. rewrite E2 in Ap. split; [now apply ascending_head |].
    unfold onClick. now rewrite E1, E2.
  - intros i rest sys m E1 E2 E3 E4 E5. rewrite E3 in As.
    split; [now apply ascending_head |].
    now apply (SolarCameraFacts.marker_click_starts h s i rest sys m).
  - intros E1 E2 E3. unfold onClick. now rewrite E1, E2, E3.
  - intros i rest E1 E2. rewrite E2 in Ao. split; [now apply ascending_head |].
    unfold onMouseMove. now rewrite E1, E2.
  - intros i rest sys E1 E2 E3 E4. rewrite E3 in As.
    split; [now apply ascending_head |].
    unfold onMouseMove. rewrite E1, E2, E3. simpl. now rewrite E4.
  - intros E1 E2 E3. unfold onMouseMove. now rewrite E1, E2, E3.
Qed.

Lemma pick_priority_witness :
  onClick SolarSamples.on_earth SolarSamples.initial
  = focusPlanet "Earth" (mkVec3 40 0 0) 0.15 SolarSamples.initial
  /\ onMouseMove SolarSamples.on_earth SolarSamples.initial
     = set_hover None None pointer SolarSamples.initial.
Proof.
  assert (ascending (hitboxIntersects SolarSamples.on_earth)) as H1.
  { simpl. repeat split; repeat constructor. }
  assert (ascending (planetIntersects SolarSamples.on_earth)) as H2.
  { simpl. repeat split; repeat constructor. }
  assert (ascending (orbitIntersects SolarSamples.on_earth)) as H3.
  { simpl. repeat split; repeat constructor. }
  assert (ascending (systemIntersects SolarSamples.on_earth)) as H4 by exact I.
  pose proof (pick_priority SolarSamples.on_earth SolarSamples.initial H1 H2 H3 H4) as T.
  destruct T as (T & _).
  destruct (T (mkIntersection 380 SolarSamples.earth_hitbox)
              [mkIntersection 410 SolarSamples.mars_hitbox] eq_refl) as (_ & T1 & T2).
  split; [exact T1 | exact T2].
Defined.

(** C5, as stated, fails. A click with an orbit line and, behind it, a
    system marker under the pointer starts the transition to the marker's
    system: the line is not a tier of the click. A pointer move that matches
    nothing resets the hovered system and the hovered orbit. *)
Lemma pick_tiers_differ :
  map (fun e => kind (snd e))
      (pending (onClick SolarSamples.on_orbit_and_marker SolarSamples.initial))
    = [AnimateTransition SolarSamples.kepler]
  /\ hoveredSystem SolarSamples.hovering = Some SolarSamples.kepler
  /\ hoveredOrbit SolarSamples.hovering = Some "Earth"%string
  /\ hoveredSystem (onMouseMove no_hits SolarSamples.hovering) = None
  /\ hoveredOrbit (onMouseMove no_hits SolarSamples.hovering) = None.
Proof. repeat split. Qed.

End PickFacts.

(** ** The star view: clicking a planet *)

Module StarCameraFacts.

Import Floats JSFloat StarRenderer.
Local Open Scope float_scope.
Set Warnings "-inexact-float".

(** A click never cancels: the callbacks already waiting stay, and the
    click's own callback waits behind them. *)
Lemma onClick_keeps_pending (s : State) (i : Intersection PlanetObj)
  (rest : list (Intersection PlanetObj)) :
  exists a, pending (onClick (i :: rest) s) = pending s ++ [a] /\
            targetPos a = planet_position (object i) /\
            progress a = 0.02.
Proof.
  unfold onClick, animateCamera. simpl.
  eexists. split; [reflexivity |]. now split.
Qed.

(** The progress of [animateCamera] passes the test [progress <= 1] on its
    first 49 calls, where it is below 1, and fails it on the 50th, where
    the sum of fifty steps of 0.02 is 1.0000000000000004. *)
Lemma star_progress :
  (forall i, (1 <= i <= 49)%nat ->
     (SolarSystemRenderer.prog 0.02 i <=? 1) = true /\
     (SolarSystemRenderer.prog 0.02 i <? 1) = true) /\
  (SolarSystemRenderer.prog 0.02 50 <=? 1) = false.
Proof.
  split; [| reflexivity]. intros i Hi.
  assert (forallb (fun i => (SolarSystemRenderer.prog 0.02 i <=? 1)
                            && (SolarSystemRenderer.prog 0.02 i <? 1))
                  (seq 1 49) = true) as H by reflexivity.
  rewrite forallb_forall in H. apply andb_prop, H, in_seq. lia.
Qed.

(** C3 in the star view: a planet is clicked, and twenty frames later
    another one. Nothing is cancelled: two callbacks wait, one per target,
    the older one with its progress going on. Both still wait 25 frames
    later, and the older one goes on to its end: the second click has not
    discarded it. *)
Theorem star_clicks_run_two_transitions :
  let s := run StarSamples.initial
             (Click StarSamples.on_b :: repeat Frame 20 ++ [Click StarSamples.on_c]) in
  map targetPos (pending s)
    = [planet_position StarSamples.planet_b; planet_position StarSamples.planet_c]
  /\ map progress (pending s) = [SolarSystemRenderer.prog 0.02 21; 0.02]
  /\ map targetPos (pending (run s (repeat Frame 25)))
    = [planet_position StarSamples.planet_b; planet_position StarSamples.planet_c]
  /\ map progress (pending (run s (repeat Frame 25)))
    = [SolarSystemRenderer.prog 0.02 46; SolarSystemRenderer.prog 0.02 26]
  /\ map targetPos (pending (run s (repeat Frame 29)))
    = [planet_position StarSamples.planet_c].
Proof. vm_compute. repeat split. Qed.

(** C4 in the star view: a planet is clicked and the frames run. The 50th
    call of [animateCamera] finds its progress above 1 and does nothing, so
    the animation ends with the pose of the 49th call, interpolated at
    0.98000000000000054: the camera and its look-target are not at the end
    pose, and no later frame moves them. *)
Theorem star_animation_stops_short :
  let s := run StarSamples.initial (Click StarSamples.on_b :: repeat Frame 49) in
  pending s = []
  /\ camera_position s
     = lerpVectors (mkVec3 0 100 300) (mkVec3 150 25 50) (SolarSystemRenderer.prog 0.02 49)
  /\ controls_target s
     = lerpVectors (mkVec3 0 0 0) (mkVec3 100 0 0) (SolarSystemRenderer.prog 0.02 49)
  /\ SolarSystemRenderer.prog 0.02 49 = 0.98000000000000054
  /\ x (camera_position s) <> 150
  /\ x (controls_target s) <> 100
  /\ run s (repeat Frame 25) = s.
Proof.
  vm_compute. repeat split; intros H; discriminate.
Qed.

(** A frame with one callback waiting, while the test passes and when it
    fails. *)
Lemma frame_passes (a : Anim) (s : State) :
  pending s = [a] -> (progress a + 0.02 <=? 1) = true ->
  frame s
  = mkState (lerpVectors (startPos a) (newCameraPos a) (progress a + 0.02))
            (lerpVectors (startTarget a) (targetPos a) (progress a + 0.02))
            [mkAnim (startPos a) (newCameraPos a) (startTarget a) (targetPos a)
                    (progress a + 0.02)]
            (focusedPlanet s).
Proof.
  intros Hp Hle. unfold frame. rewrite Hp. cbn [fold_left].
  unfold animateCamera. rewrite Hle. reflexivity.
Qed.

Lemma frame_fails (a : Anim) (s : State) :
  pending s = [a] -> (progress a + 0.02 <=? 1) = false ->
  frame s = mkState (camera_position s) (controls_target s) [] (focusedPlanet s).
Proof.
  intros Hp Hgt. unfold frame. rewrite Hp. cbn [fold_left].
  unfold animateCamera. rewrite Hgt. reflexivity.
Qed.

Lemma run_snoc (es : list Event) (e : Event) (s : State) :
  run s (es ++ [e]) = step (run s es) e.
Proof. unfold run. now rewrite fold_left_app. Qed.

Lemma frames_snoc (n : nat) : repeat Frame (S n) = repeat Frame n ++ [Frame].
Proof. replace (S n) with (n + 1)%nat by lia. now rewrite repeat_app. Qed.

(** The same for every click in a star view where nothing waits: the
    animation ends after 49 frames at the pose interpolated at
    0.98000000000000054, whatever the start and end poses are. *)
Lemma star_animation_ends_at_49th_pose (s : State) (i : Intersection PlanetObj)
  (rest : list (Intersection PlanetObj)) :
  pending s = [] ->
  let target := planet_position (object i) in
  let endPos := mkVec3 (x target + 50) (y target + 50 * 0.5) (z target + 50) in
  let s' := run s (Click (i :: rest) :: repeat Frame 49) in
  pending s' = [] /\
  camera_position s'
    = lerpVectors (camera_position s) endPos (SolarSystemRenderer.prog 0.02 49) /\
  controls_target s'
    = lerpVectors (controls_target s) target (SolarSystemRenderer.prog 0.02 49).
Proof.
  intros Hp target endPos s'.
  destruct star_progress as (Hle & Hgt).
  assert (forall n, (n <= 48)%nat ->
            run s (Click (i :: rest) :: repeat Frame n)
            = mkState (lerpVectors (camera_position s) endPos
                                   (SolarSystemRenderer.prog 0.02 (S n)))
                      (lerpVectors (controls_target s) target
                                   (SolarSystemRenderer.prog 0.02 (S n)))
                      [mkAnim (camera_position s) endPos (controls_target s) target
                              (SolarSystemRenderer.prog 0.02 (S n))]
                      (Some (planet_name (object i)))) as Hrun.
  { induction n as [| n IH]; intros Hn.
    - cbn [repeat run fold_left step]. unfold onClick.
      cbn [camera_position controls_target pending].
      unfold animateCamera. cbn [progress].
      change (0 + 0.02 <=? 1) with true. cbv iota.
      cbn [startPos newCameraPos startTarget targetPos pending focusedPlanet].
      rewrite Hp. reflexivity.
    - rewrite frames_snoc, app_comm_cons, run_snoc, IH by lia.
      cbn [step]. erewrite frame_passes; [| reflexivity |].
      + reflexivity.
      + cbn [progress]. apply (Hle (S (S n))). lia. }
  subst s'. rewrite frames_snoc, app_comm_cons, run_snoc, Hrun by lia.
  cbn [step]. erewrite frame_fails; [| reflexivity | exact Hgt].
  cbn [pending camera_position controls_target]. repeat split.
Qed.

End StarCameraFacts.

(** ** OrbitalPaths: more on the curve *)

Module OrbitalPathsMore.

Import JSReal JSRealFacts OrbitalPaths.
Local Open Scope R_scope.

Lemma sin2_cos2' (t : R) : sin t * sin t + cos t * cos t = 1.
Proof. pose proof (sin2_cos2 t) as H. unfold Rsqr in H. exact H. Qed.

Lemma rotate_keeps_norm (x y argP incl : R) :
  exists X Y Z,
    rotate (Fin x, Fin y) argP incl = mkVector3 (Fin X) (Fin Y) (Fin Z) /\
    X * X + Y * Y + Z * Z = x * x + y * y /\
    Y * sin incl = Z * cos incl.
Proof.
  eexists. eexists. eexists. split; [reflexivity |].
  pose proof (sin2_cos2' argP) as Ha. pose proof (sin2_cos2' incl) as Hi.
  split.
  - set (ca := cos argP) in *. set (sa := sin argP) in *.
    set (ci := cos incl) in *. set (si := sin incl) in *.
    replace ((x * ca - y * sa) * (x * ca - y * sa)
             + ((x * sa + y * ca) * ci - 0 * si) * ((x * sa + y * ca) * ci - 0 * si)
             + ((x * sa + y * ca) * si + 0 * ci) * ((x * sa + y * ca) * si + 0 * ci))
      with ((x * x + y * y) * (sa * sa + ca * ca)
            + (x * sa + y * ca) * (x * sa + y * ca) * (si * si + ci * ci - 1)) by ring.
    rewrite Ha, Hi. ring.
  - ring.
Qed.

(** X1: The two rotations of the loop body move a point of the orbital plane
    without changing its distance from the origin, and put it on the plane
    through the X axis that is tilted by the inclination. *)
Theorem rotate_rigid_and_planar (x y argP incl : R) :
  exists X Y Z,
    rotate (Fin x, Fin y) argP incl = mkVector3 (Fin X) (Fin Y) (Fin Z) /\
    X * X + Y * Y + Z * Z = x * x + y * y /\
    Y * sin incl = Z * cos incl.
Proof. exact (rotate_keeps_norm x y argP incl). Qed.



(** X3: [draw] adds one line per record that passes the guard, in the order of
    the records, and nothing else; the colour of a line comes from the index
    of its record in the whole list, skipped records counted. *)
Theorem draw_one_line_per_kept_record (orbits : list OrbitData) (sr : R) :
  map points (draw orbits sr)
    = map (fun o => orbit_points o sr) (filter (fun o => negb (skipped o)) orbits)
  /\ (length (draw orbits sr) <= length orbits)%nat
  /\ (forall l, In l (draw orbits sr) ->
        exists k o, nth_error orbits k = Some o /\ skipped o = false /\
                    l = mkLine (orbit_points o sr) (line_color k)).
Proof.
  unfold draw, forEach.
  assert (forall i,
            map points (forEach_from (fun orbit index => draw_orbit orbit index sr) i orbits)
            = map (fun o => orbit_points o sr) (filter (fun o => negb (skipped o)) orbits)
            /\ (length (forEach_from (fun orbit index => draw_orbit orbit index sr) i orbits)
                <= length orbits)%nat
            /\ (forall l, In l (forEach_from (fun orbit index => draw_orbit orbit index sr) i orbits) ->
                  exists k o, nth_error orbits k = Some o /\ skipped o = false /\
                              l = mkLine (orbit_points o sr) (line_color (i + k)))) as H.
  { induction orbits as [| o t IH]; intros i; simpl.
    - repeat split; [lia | intros l []].
    - destruct (IH (S i)) as (H1 & H2 & H3).
      unfold draw_orbit at 1 3 5. destruct (skipped o) eqn:E; simpl.
      + split; [exact H1 |]. split; [lia |].
        intros l Hl. destruct (H3 l Hl) as (k & q & Hk & Hq & ->).
        exists (S k), q. repeat split; try assumption.
        now replace (i + S k)%nat with (S i + k)%nat by lia.
      + split; [now rewrite H1 |]. split; [lia |].
        intros l [<- | Hl].
        * exists 0%nat, o. rewrite Nat.add_0_r. now repeat split.
        * destruct (H3 l Hl) as (k & q & Hk & Hq & ->).
          exists (S k), q. repeat split; try assumption.
          now replace (i + S k)%nat with (S i + k)%nat by lia. }
  apply (H 0%nat).
Qed.

(** X4: Two records at different indices below 1864135 get different colour
    numbers. *)
Theorem line_color_distinct (i j : nat) :
  (Z.of_nat i < 1864135)%Z -> (Z.of_nat j < 1864135)%Z ->
  i <> j -> line_color i <> line_color j.
Proof.
  intros Hi Hj Hne H. apply Hne. unfold line_color in H. apply Z.add_reg_l in H.
  assert ((16777215 | (Z.of_nat i - Z.of_nat j) * 9999)%Z) as Hd.
  { apply Z.mod_divide; [discriminate |].
    rewrite Z.mul_sub_distr_r, Zminus_mod, H, Z.sub_diag. reflexivity. }
  assert ((1864135 | 1111 * (Z.of_nat i - Z.of_nat j))%Z) as Hd'.
  { destruct Hd as (q & Hq). exists q. lia. }
  apply Z.gauss in Hd'; [| reflexivity].
  destruct Hd' as (q & Hq).
  assert (q = 0)%Z by lia. lia.
Qed.

Lemma line_color_distinct_witness : line_color 0 <> line_color 1678.
Proof.
  apply (line_color_distinct 0 1678); [reflexivity | reflexivity | discriminate].
Defined.

(** X5: Every colour number lies in [0x44bbff, 0x44bbff + 0xfffffe]; the upper
    part of that range is beyond the 24 bits of a colour, and index 1228 is
    the first one to get there. *)
Lemma line_color_range (i : nat) :
  (4504575 <= line_color i <= 4504575 + 16777214)%Z
  /\ (16777215 < line_color 1228)%Z
  /\ ((Z.of_nat i < 1228)%Z -> (line_color i <= 16777215)%Z).
Proof.
  unfold line_color.
  pose proof (Z.mod_pos_bound (Z.of_nat i * 9999) 16777215 eq_refl) as Hb.
  split; [lia |]. split; [reflexivity |].
  intros Hi. rewrite Z.mod_small by lia. lia.
Qed.

End OrbitalPathsMore.

(** ** OrbitalPaths in doubles: when the curve is finite *)

Module OrbitalPathsDoubleFacts.

Import JSDouble OrbitalPathsDouble.
Local Open Scope R_scope.

(** *** Powers of two *)

Lemma two_pow_pos (e : Z) : 0 < powerRZ 2 e.
Proof. apply powerRZ_lt. lra. Qed.

Lemma two_pow_add (n m : Z) : powerRZ 2 (n + m) = powerRZ 2 n * powerRZ 2 m.
Proof. apply powerRZ_add. lra. Qed.

Lemma two_pow_ge_1 (k : Z) : (0 <= k)%Z -> 1 <= powerRZ 2 k.
Proof.
  intros Hk. rewrite <- (Z2Nat.id k Hk), <- pow_powerRZ. apply pow_R1_Rle. lra.
Qed.

Lemma two_pow_le (n m : Z) : (n <= m)%Z -> powerRZ 2 n <= powerRZ 2 m.
Proof.
  intros H. replace m with (n + (m - n))%Z by lia. rewrite two_pow_add.
  pose proof (two_pow_pos n). pose proof (two_pow_ge_1 (m - n) ltac:(lia)). nra.
Qed.

Lemma two_pow_1023_le_MAX : powerRZ 2 1023 <= MAX_VALUE.
Proof.
  unfold MAX_VALUE. pose proof (two_pow_pos 1023).
  pose proof (two_pow_le (-52) 0 ltac:(lia)) as H1. rewrite powerRZ_O in H1. nra.
Qed.

Lemma MAX_lt_OVERFLOW : MAX_VALUE < OVERFLOW.
Proof.
  unfold MAX_VALUE, OVERFLOW.
  replace 1024%Z with (1 + 1023)%Z by lia.
  replace 970%Z with (-53 + 1023)%Z by lia.
  replace (-52)%Z with (1 + -53)%Z by lia.
  rewrite !two_pow_add. change (powerRZ 2 1) with (2 * 1).
  pose proof (two_pow_pos 1023). pose proof (two_pow_pos (-53)). nra.
Qed.

(** The bounds of the development, as multiples of [axis_max]. *)
Lemma axis_bounds :
  0 < axis_min /\ axis_min <= 1 /\ 1 <= axis_max /\ 32 * axis_max < OVERFLOW.
Proof.
  unfold axis_min, axis_max, OVERFLOW.
  split; [apply two_pow_pos |].
  split; [rewrite <- (powerRZ_O 2); apply two_pow_le; lia |].
  split; [apply two_pow_ge_1; lia |].
  replace 1024%Z with (24 + 1000)%Z by lia. rewrite two_pow_add.
  pose proof (two_pow_le 970 1000 ltac:(lia)). pose proof (two_pow_pos 1000).
  assert (powerRZ 2 24 = 16777216) as -> by (simpl; lra). nra.
Qed.

(** *** Doubles *)

(** [m * 2^e] with [|m| <= 1024] and [-1074 <= e <= 1013] is a double. *)
Lemma representable_small (m e : Z) :
  (Z.abs m <= 1024)%Z -> (-1074 <= e <= 1013)%Z ->
  representable (IZR m * powerRZ 2 e).
Proof.
  intros Hm He. exists m, e. split; [reflexivity |]. split; [lia |]. split; [lia |].
  rewrite Rabs_mult, <- abs_IZR, (Rabs_right (powerRZ 2 e))
    by (left; apply Rlt_gt, two_pow_pos).
  apply Rle_trans with (powerRZ 2 1023); [| apply two_pow_1023_le_MAX].
  replace 1023%Z with (10 + 1013)%Z by lia. rewrite two_pow_add.
  assert (powerRZ 2 10 = 1024) as -> by (simpl; lra).
  assert (0 <= IZR (Z.abs m) <= 1024) as Hm'.
  { split; [apply IZR_le; lia | apply IZR_le; exact Hm]. }
  pose proof (two_pow_le e 1013 ltac:(lia)). pose proof (two_pow_pos e). nra.
Qed.

Lemma representable_eq (x : R) (m e : Z) :
  x = IZR m * powerRZ 2 e ->
  (Z.abs m <= 1024)%Z -> (-1074 <= e <= 1013)%Z -> representable x.
Proof. intros ->. apply representable_small. Qed.

Ltac dyadic m e :=
  apply (representable_eq _ m e); [try (simpl; lra) | lia | lia].

Lemma representable_axis_max (k : Z) :
  (Z.abs k <= 1024)%Z -> representable (IZR k * axis_max).
Proof. intros Hk. apply representable_small; [exact Hk | lia]. Qed.

Lemma axis_min_eighth : axis_min / 8 = powerRZ 2 (-1003).
Proof.
  unfold axis_min. replace (-1000)%Z with (-1003 + 3)%Z by lia.
  rewrite two_pow_add. assert (powerRZ 2 3 = 8) as -> by (simpl; lra). field.
Qed.

Section Rounded.

Variable rnd : R -> R.
Hypothesis Hrnd : rounds rnd.

Lemma rnd_le (x u : R) : representable u -> x <= u -> rnd x <= u.
Proof.
  intros Hu Hx. rewrite <- (proj2 Hrnd u Hu). now apply (proj1 Hrnd).
Qed.

Lemma rnd_ge (x l : R) : representable l -> l <= x -> l <= rnd x.
Proof.
  intros Hl Hx. rewrite <- (proj2 Hrnd l Hl). now apply (proj1 Hrnd).
Qed.

Lemma fl_finite (r : R) : Rabs r < OVERFLOW -> fl rnd r = Fin (rnd r).
Proof. intros H. unfold fl. now destruct (Rlt_dec (Rabs r) OVERFLOW). Qed.

(** A finite number between [l] and [u]. *)
Definition between (l u : R) (p : number) : Prop :=
  exists r, p = Fin r /\ l <= r <= u.

Lemma between_finite (l u : R) (p : number) : between l u p -> finite p.
Proof. intros (r & -> & _). exact I. Qed.

Lemma between_weaken (l u l' u' : R) (p : number) :
  between l u p -> l' <= l -> u <= u' -> between l' u' p.
Proof. intros (r & -> & H) Hl Hu. exists r. split; [reflexivity | lra]. Qed.

(** The rounded value of a real between two doubles that do not
    overflow. *)
Lemma fl_between (l u r : R) :
  representable l -> representable u ->
  - OVERFLOW < l -> u < OVERFLOW -> l <= r <= u ->
  between l u (fl rnd r).
Proof.
  intros Hl Hu Hlo Hhi Hr. rewrite fl_finite by (apply Rabs_def1; lra).
  exists (rnd r). split; [reflexivity |]. split; [apply rnd_ge | apply rnd_le]; tauto.
Qed.

Lemma representable_opp (x : R) : representable x -> representable (- x).
Proof.
  intros (m & e & Hx & Hm & He & Hb). exists (- m)%Z, e.
  split; [rewrite opp_IZR, Hx; ring |]. split; [lia |]. split; [exact He |].
  now rewrite Rabs_Ropp.
Qed.

Lemma nmul_between (k : R) (p q : number) :
  0 <= k -> representable k -> k < OVERFLOW ->
  between (- k) k p -> between (-1) 1 q ->
  between (- k) k (nmul rnd p q).
Proof.
  intros Hk Hr Ho (a & -> & Ha) (c & -> & Hc). cbn [nmul].
  apply fl_between; [now apply representable_opp | exact Hr | lra | exact Ho | nra].
Qed.

Lemma nadd_between (k : R) (p q : number) :
  0 <= k -> representable (2 * k) -> 2 * k < OVERFLOW ->
  between (- k) k p -> between (- k) k q ->
  between (- (2 * k)) (2 * k) (nadd rnd p q).
Proof.
  intros Hk Hr Ho (a & -> & Ha) (c & -> & Hc). cbn [nadd].
  apply fl_between; [now apply representable_opp | exact Hr | lra | exact Ho | lra].
Qed.

Lemma nsub_between (k : R) (p q : number) :
  0 <= k -> representable (2 * k) -> 2 * k < OVERFLOW ->
  between (- k) k p -> between (- k) k q ->
  between (- (2 * k)) (2 * k) (nsub rnd p q).
Proof.
  intros Hk Hr Ho Hp (c & -> & Hc). unfold nsub. cbn [nneg].
  apply nadd_between; try assumption. exists (- c). split; [reflexivity | lra].
Qed.

Section Trigonometry.

Variables Math_cos_R Math_sin_R : R -> R.
Hypothesis Hcos : in_unit Math_cos_R.
Hypothesis Hsin : in_unit Math_sin_R.

Lemma Math_cos_between (p : number) :
  finite p -> between (-1) 1 (Math_cos Math_cos_R p).
Proof.
  destruct p as [a | |]; try contradiction. intros _.
  exists (Math_cos_R a). split; [reflexivity | apply Hcos].
Qed.

Lemma Math_sin_between (p : number) :
  finite p -> between (-1) 1 (Math_sin Math_sin_R p).
Proof.
  destruct p as [a | |]; try contradiction. intros _.
  exists (Math_sin_R a). split; [reflexivity | apply Hsin].
Qed.

(** [Math.PI] and [Math.PI / 180] *)
Lemma Math_PI_between : between 0 4 (Math_PI rnd).
Proof.
  exists (rnd PI). split; [reflexivity |]. split.
  - apply rnd_ge; [dyadic 0%Z 0%Z | pose proof PI_RGT_0; lra].
  - apply rnd_le; [dyadic 4%Z 0%Z | apply PI_4].
Qed.

Lemma overflow_above_32 : 32 < OVERFLOW.
Proof. destruct axis_bounds as (_ & _ & H1 & H2). lra. Qed.

Lemma degree_between : between 0 1 (ndiv rnd (Math_PI rnd) (Fin 180)).
Proof.
  destruct Math_PI_between as (P & -> & HP). cbn [ndiv].
  destruct (Req_dec_T 180 0) as [E | _]; [lra |].
  pose proof overflow_above_32.
  apply fl_between; [dyadic 0%Z 0%Z | dyadic 1%Z 0%Z | lra | lra | lra].
Qed.

(** The angle of every sample is finite. *)
Lemma theta_finite (i : nat) : (i <= 180)%nat -> finite (theta rnd i).
Proof.
  intros Hi. pose proof overflow_above_32 as Ho.
  assert (0 <= INR i <= 180) as Hr.
  { split; [apply pos_INR |].
    replace 180 with (INR 180) by (rewrite INR_IZR_INZ; reflexivity).
    now apply le_INR. }
  assert (between 0 1 (ndiv rnd (Fin (INR i)) (Fin 180))) as (t & Et & Ht).
  { cbn [ndiv]. destruct (Req_dec_T 180 0) as [E | _]; [lra |].
    apply fl_between; [dyadic 0%Z 0%Z | dyadic 1%Z 0%Z | lra | lra | lra]. }
  assert (between 0 2 (nmul rnd (Fin t) (Fin 2))) as (u & Eu & Hu).
  { cbn [nmul]. apply fl_between; [dyadic 0%Z 0%Z | dyadic 2%Z 0%Z | lra | lra | lra]. }
  destruct Math_PI_between as (P & EP & HP).
  unfold theta. rewrite Et, Eu, EP. cbn [nmul].
  apply between_finite with 0 8.
  apply fl_between; [dyadic 0%Z 0%Z | dyadic 8%Z 0%Z | lra | lra | nra].
Qed.

(** An angle field that is missing, [NaN] or finite gives a finite angle
    in radians. *)
Lemma radians_finite (x : field) :
  angle_finite x ->
  finite (nmul rnd (js_or x (Fin 0)) (ndiv rnd (Math_PI rnd) (Fin 180))).
Proof.
  intros Hx. destruct degree_between as (q & -> & Hq).
  assert (exists r, js_or x (Fin 0) = Fin r /\ Rabs r <= MAX_VALUE) as (r & -> & Hr).
  { pose proof two_pow_1023_le_MAX. pose proof (two_pow_pos 1023).
    destruct x as [[r | s |] |]; cbn in Hx |- *.
    - destruct (Req_dec_T r 0); [exists 0 | exists r]; (split; [reflexivity |]);
        [rewrite Rabs_R0; lra | exact Hx].
    - contradiction.
    - exists 0. split; [reflexivity | rewrite Rabs_R0; lra].
    - exists 0. split; [reflexivity | rewrite Rabs_R0; lra]. }
  cbn [nmul]. rewrite fl_finite; [exact I |].
  apply Rle_lt_trans with MAX_VALUE; [| apply MAX_lt_OVERFLOW].
  rewrite Rabs_mult. rewrite (Rabs_right q) by lra.
  pose proof (Rabs_pos r). nra.
Qed.

(** The eccentricity used: between -0.95 and the double nearest 0.95,
    which is below 1. *)
Lemma ecc_between (o : OrbitData) :
  eccentricity_in_range (pl_orbeccen o) ->
  0 <= rnd 0.95 <= 31 / 32 /\
  exists e, ecc rnd o = Fin e /\ -0.95 <= e <= rnd 0.95 /\
            (forall g, pl_orbeccen o = Some (Fin g) -> e = Rmin g (rnd 0.95)) /\
            (pl_orbeccen o = None -> e = 0) /\
            (forall g, pl_orbeccen o = Some (Fin g) -> 1 <= g -> e = rnd 0.95).
Proof.
  intros He.
  assert (0 <= rnd 0.95 <= 31 / 32) as Hc.
  { split; [apply rnd_ge; [dyadic 0%Z 0%Z | lra] |].
    apply rnd_le; [dyadic 31%Z (-5)%Z | lra]. }
  split; [exact Hc |]. unfold ecc, lit_0_95.
  destruct (pl_orbeccen o) as [[g | s |] |]; cbn in He |- *.
  - destruct (Req_dec_T g 0) as [E | N]; cbn.
    + exists (Rmin 0 (rnd 0.95)). split; [reflexivity |].
      split; [rewrite Rmin_left by lra; lra |].
      split; [intros g' Hg'; injection Hg' as <-; now rewrite E |].
      split; [discriminate |].
      intros g' Hg' H1. injection Hg' as <-. lra.
    + exists (Rmin g (rnd 0.95)). split; [reflexivity |].
      split; [split; [apply Rmin_glb; lra | apply Rmin_r] |].
      split; [intros g' Hg'; now injection Hg' as <- |].
      split; [discriminate |].
      intros g' Hg' H1. injection Hg' as <-. apply Rmin_right. lra.
  - subst s. exists (rnd 0.95). split; [reflexivity |]. split; [lra |].
    split; [discriminate |]. split; discriminate.
  - exists (Rmin 0 (rnd 0.95)). split; [reflexivity |].
    rewrite Rmin_left by lra. split; [lra |].
    split; [discriminate |]. split; discriminate.
  - exists (Rmin 0 (rnd 0.95)). split; [reflexivity |].
    rewrite Rmin_left by lra. split; [lra |].
    split; [discriminate |]. split; [reflexivity | discriminate].
Qed.

(** [Math.sqrt(1 - ecc * ecc)] for an eccentricity in that range. *)
Lemma root_between (e : R) :
  -0.95 <= e <= 31 / 32 ->
  between (1 / 8) 1
    (Math_sqrt rnd (nsub rnd (Fin 1) (nmul rnd (Fin e) (Fin e)))).
Proof.
  intros He. pose proof overflow_above_32 as Ho.
  assert (between 0 (961 / 1024) (nmul rnd (Fin e) (Fin e))) as (q & -> & Hq).
  { cbn [nmul].
    apply fl_between; [dyadic 0%Z 0%Z | dyadic 961%Z (-10)%Z | lra | lra | nra]. }
  assert (between (63 / 1024) 1 (nsub rnd (Fin 1) (Fin q))) as (d & -> & Hd).
  { unfold nsub. cbn [nneg nadd].
    apply fl_between; [dyadic 63%Z (-10)%Z | dyadic 1%Z 0%Z | lra | lra | lra]. }
  cbn [Math_sqrt]. destruct (Rlt_dec d 0) as [N | _]; [lra |].
  exists (rnd (sqrt d)). split; [reflexivity |].
  assert (1 / 8 <= sqrt d <= 1) as Hs.
  { split.
    - replace (1 / 8) with (sqrt (1 / 8 * (1 / 8))) by (apply sqrt_square; lra).
      apply sqrt_le_1_alt. lra.
    - rewrite <- sqrt_1. apply sqrt_le_1_alt. lra. }
  split; [apply rnd_ge; [dyadic 1%Z (-3)%Z | lra] | apply rnd_le; [dyadic 1%Z 0%Z | lra]].
Qed.

(** C10, as amended: for a record whose semi-major axis lies between
    [2^-1000] and [2^1000], with a star radius between 0 and [2^1000], an
    eccentricity that is missing, [NaN], plus infinity or at least -0.95,
    and angles that are missing, [NaN] or finite, the record is drawn; the
    eccentricity used is [min(e or 0, 0.95)], which is the double nearest
    0.95 for every input from 1 on; [b] is a finite positive number; and
    each of the 181 points is finite. This holds for every rounding that
    keeps the order and the doubles, with overflow to infinity, and for
    every [Math.cos] and [Math.sin] with values between -1 and 1. *)
Theorem orbit_curve_finite (o : OrbitData) (sr a : R) :
  pl_orbsmax o = Some (Fin a) -> axis_min <= a <= axis_max ->
  0 <= sr <= axis_max ->
  eccentricity_in_range (pl_orbeccen o) ->
  angle_finite (pl_orbincl o) -> angle_finite (pl_orblper o) ->
  skipped o = false /\
  (exists e, ecc rnd o = Fin e /\ -0.95 <= e <= rnd 0.95 /\ rnd 0.95 < 1 /\
             (forall g, pl_orbeccen o = Some (Fin g) -> e = Rmin g (rnd 0.95)) /\
             (pl_orbeccen o = None -> e = 0) /\
             (forall g, pl_orbeccen o = Some (Fin g) -> 1 <= g -> e = rnd 0.95)) /\
  (exists b, scene_b rnd o (Fin sr) = Fin b /\ 0 < b) /\
  length (orbit_points rnd Math_cos_R Math_sin_R o (Fin sr)) = 181%nat /\
  Forall finite3 (orbit_points rnd Math_cos_R Math_sin_R o (Fin sr)).
Proof.
  intros Haxis Ha Hsr Hecc Hincl Hper.
  destruct axis_bounds as (Hmin & Hmin1 & Hmax1 & Hover).
  set (K := axis_max) in *.
  assert (representable axis_min) as Rmin0.
  { apply (representable_eq _ 1 (-1000)); [unfold axis_min; lra | lia | lia]. }
  assert (forall n : Z, (Z.abs n <= 1024)%Z -> representable (IZR n * K)) as RK
      by (intros n Hn; now apply representable_axis_max).
  (* the guard *)
  assert (skipped o = false) as Hskip.
  { unfold skipped. rewrite Haxis. cbn.
    destruct (Req_dec_T a 0); [lra |]. destruct (Rle_dec a 0); [lra | reflexivity]. }
  (* a *)
  assert (between axis_min (8 * K) (scene_a rnd o (Fin sr))) as (A & EA & HA).
  { unfold scene_a. rewrite Haxis.
    assert (between axis_min (4 * K) (nmul rnd (Fin a) (Fin 3))) as (t & -> & Ht).
    { cbn [nmul]. apply fl_between; [exact Rmin0 | apply (RK 4%Z); lia | lra | lra | lra]. }
    cbn [nadd]. apply fl_between; [exact Rmin0 | apply (RK 8%Z); lia | lra | lra | lra]. }
  (* ecc and the root *)
  destruct (ecc_between o Hecc) as (Hc & e & Ee & He & Hclamp & Hnone & Hbig).
  assert (between (1 / 8) 1
            (Math_sqrt rnd (nsub rnd (Fin 1) (nmul rnd (ecc rnd o) (ecc rnd o)))))
    as (r & Er & Hr) by (rewrite Ee; apply root_between; lra).
  (* b *)
  assert (between (axis_min / 8) (8 * K) (scene_b rnd o (Fin sr))) as (B & EB & HB).
  { unfold scene_b. rewrite EA, Er. cbn [nmul].
    apply fl_between; [| apply (RK 8%Z); lia | lra | lra | nra].
    rewrite axis_min_eighth. apply (representable_eq _ 1 (-1003)); [lra | lia | lia]. }
  split; [exact Hskip |]. split.
  { exists e. split; [exact Ee |]. split; [exact He |]. split; [lra |].
    split; [exact Hclamp |]. split; [exact Hnone | exact Hbig]. }
  split; [exists B; split; [exact EB | lra] |].
  split; [unfold orbit_points; now rewrite length_map, length_seq |].
  (* the points *)
  unfold orbit_points. apply Forall_map, Forall_forall. intros i Hi.
  apply in_seq in Hi.
  pose proof (theta_finite i ltac:(lia)) as Hth.
  pose proof (radians_finite _ Hincl) as Hinc. fold (inclination rnd o) in Hinc.
  pose proof (radians_finite _ Hper) as Harg. fold (argPeriastron rnd o) in Harg.
  unfold orbit_point. cbv zeta. rewrite EA, EB.
  set (th := theta rnd i) in *. set (incl := inclination rnd o) in *.
  set (argP := argPeriastron rnd o) in *.
  assert (0 <= 8 * K) as K8 by lra.
  assert (between (- (8 * K)) (8 * K) (nmul rnd (Fin A) (Math_cos Math_cos_R th))) as Hx.
  { apply nmul_between; [exact K8 | apply (RK 8%Z); lia | lra | | now apply Math_cos_between].
    exists A. split; [reflexivity | lra]. }
  assert (between (- (8 * K)) (8 * K) (nmul rnd (Fin B) (Math_sin Math_sin_R th))) as Hy.
  { apply nmul_between; [exact K8 | apply (RK 8%Z); lia | lra | | now apply Math_sin_between].
    exists B. split; [reflexivity | lra]. }
  set (x := nmul rnd (Fin A) (Math_cos Math_cos_R th)) in *.
  set (y := nmul rnd (Fin B) (Math_sin Math_sin_R th)) in *.
  assert (forall p q, between (- (8 * K)) (8 * K) p -> between (-1) 1 q ->
            between (- (8 * K)) (8 * K) (nmul rnd p q)) as M8.
  { intros p q. apply nmul_between; [exact K8 | apply (RK 8%Z); lia | lra]. }
  assert (representable (2 * (8 * K))) as R16.
  { replace (2 * (8 * K)) with (16 * K) by ring. apply (RK 16%Z). lia. }
  assert (between (- (2 * (8 * K))) (2 * (8 * K))
            (nsub rnd (nmul rnd x (Math_cos Math_cos_R argP))
                      (nmul rnd y (Math_sin Math_sin_R argP)))) as Hpx.
  { apply nsub_between; [exact K8 | exact R16 | lra | |];
      apply M8; try assumption;
      [now apply Math_cos_between | now apply Math_sin_between]. }
  assert (between (- (2 * (8 * K))) (2 * (8 * K))
            (nadd rnd (nmul rnd x (Math_sin Math_sin_R argP))
                      (nmul rnd y (Math_cos Math_cos_R argP)))) as Hpy.
  { apply nadd_between; [exact K8 | exact R16 | lra | |];
      apply M8; try assumption;
      [now apply Math_sin_between | now apply Math_cos_between]. }
  set (py := nadd rnd (nmul rnd x (Math_sin Math_sin_R argP))
                      (nmul rnd y (Math_cos Math_cos_R argP))) in *.
  assert (0 <= 2 * (8 * K)) as K16 by lra.
  assert (forall p q, between (- (2 * (8 * K))) (2 * (8 * K)) p -> between (-1) 1 q ->
            between (- (2 * (8 * K))) (2 * (8 * K)) (nmul rnd p q)) as M16.
  { intros p q. apply nmul_between; [exact K16 | exact R16 | lra]. }
  assert (between (- (2 * (8 * K))) (2 * (8 * K)) (Fin 0)) as Hz.
  { exists 0. split; [reflexivity | lra]. }
  assert (representable (2 * (2 * (8 * K)))) as R32.
  { replace (2 * (2 * (8 * K))) with (32 * K) by ring. apply (RK 32%Z). lia. }
  repeat split; cbn [vx vy vz].
  - exact (between_finite _ _ _ Hpx).
  - eapply between_finite. apply nsub_between; [exact K16 | exact R32 | lra | |];
      apply M16; try assumption;
      [now apply Math_cos_between | now apply Math_sin_between].
  - eapply between_finite. apply nadd_between; [exact K16 | exact R32 | lra | |];
      apply M16; try assumption;
      [now apply Math_sin_between | now apply Math_cos_between].
Qed.

End Trigonometry.

Lemma nmul_NaN_r (p : number) : nmul rnd p NaN = NaN.
Proof. now destruct p. Qed.

Lemma nsub_NaN_r (p : number) : nsub rnd p NaN = NaN.
Proof. now destruct p. Qed.

End Rounded.

Lemma rounds_exact : rounds exact.
Proof. split; intros; unfold exact; trivial. Qed.

Lemma orbit_curve_finite_witness :
  Forall finite3 (orbit_points exact cos sin hyperbolic (Fin 1)).
Proof.
  destruct axis_bounds as (H0 & H1 & H2 & _).
  assert (axis_min <= 1 <= axis_max) as Ha by lra.
  assert (0 <= 1 <= axis_max) as Hs by lra.
  assert (eccentricity_in_range (pl_orbeccen hyperbolic)) as He by (cbn; lra).
  apply (orbit_curve_finite exact rounds_exact cos sin COS_bound SIN_bound
           hyperbolic 1 1 eq_refl Ha Hs He I I).
Defined.

Lemma three_MAX_overflows : ~ Rabs (MAX_VALUE * 3) < OVERFLOW.
Proof.
  assert (0 < MAX_VALUE).
  { apply Rlt_le_trans with (powerRZ 2 1023);
      [apply two_pow_pos | apply two_pow_1023_le_MAX]. }
  rewrite Rabs_right by lra.
  unfold MAX_VALUE, OVERFLOW in *.
  replace 1024%Z with (1 + 1023)%Z by lia.
  replace 970%Z with (-53 + 1023)%Z by lia.
  replace (-52)%Z with (1 + -53)%Z by lia.
  rewrite !two_pow_add. change (powerRZ 2 1) with (2 * 1).
  pose proof (two_pow_pos 1023). pose proof (two_pow_pos (-53)).
  pose proof (two_pow_le (-53) (-1) ltac:(lia)) as Hq.
  assert (powerRZ 2 (-1) = 1 / 2) as E by (simpl; lra). rewrite E in Hq. nra.
Qed.

(** C10, as stated, fails, for two reasons. [Math.min] bounds the
    eccentricity from above only: with [e = -2] the square root is taken of
    -3, [b] is [NaN] and so is the first coordinate of every point. And
    a positive semi-major axis can be too large: with [Number.MAX_VALUE],
    [a] and [b] are infinite, the product of [y] with the sine of the
    argument of periastron, which is 0, is [NaN], and so is the first
    coordinate of every point. Shown for arithmetic that rounds nothing;
    the numbers met are doubles. *)
Lemma curve_not_always_finite :
  pl_orbsmax negative_ecc = Some (Fin 1) /\
  ecc exact negative_ecc = Fin (-2) /\
  scene_b exact negative_ecc (Fin 1) = NaN /\
  Forall (fun p => vx p = NaN) (orbit_points exact cos sin negative_ecc (Fin 1)) /\
  pl_orbsmax huge_axis = Some (Fin MAX_VALUE) /\ 0 < MAX_VALUE /\
  scene_a exact huge_axis (Fin 0) = Inf true /\
  scene_b exact huge_axis (Fin 0) = Inf true /\
  Forall (fun p => vx p = NaN) (orbit_points exact cos sin huge_axis (Fin 0)).
Proof.
  pose proof (overflow_above_32) as Ho.
  assert (0 < MAX_VALUE) as HM.
  { apply Rlt_le_trans with (powerRZ 2 1023);
      [apply two_pow_pos | apply two_pow_1023_le_MAX]. }
  (* e = -2 *)
  assert (ecc exact negative_ecc = Fin (-2)) as E1.
  { unfold ecc, lit_0_95, exact. cbn. destruct (Req_dec_T (-2) 0); [lra |].
    cbn. f_equal. apply Rmin_left. lra. }
  assert (scene_b exact negative_ecc (Fin 1) = NaN) as B1.
  { unfold scene_b. rewrite E1. cbn [nmul].
    rewrite (fl_finite exact) by (rewrite Rabs_right; lra).
    unfold nsub. cbn [nneg nadd].
    rewrite (fl_finite exact) by (unfold exact; rewrite Rabs_left; lra).
    unfold exact. cbn [Math_sqrt].
    destruct (Rlt_dec (1 + - (-2 * -2)) 0) as [_ | N]; [| lra].
    apply nmul_NaN_r. }
  (* a = MAX_VALUE *)
  assert (scene_a exact huge_axis (Fin 0) = Inf true) as A2.
  { unfold scene_a. cbn [pl_orbsmax huge_axis nmul]. unfold fl.
    destruct (Rlt_dec (Rabs (MAX_VALUE * 3)) OVERFLOW) as [L | _];
      [now apply three_MAX_overflows in L |].
    unfold positive_sign. destruct (Rlt_dec 0 (MAX_VALUE * 3)); [reflexivity | lra]. }
  assert (scene_b exact huge_axis (Fin 0) = Inf true) as B2.
  { unfold scene_b. rewrite A2.
    destruct (ecc_between exact rounds_exact huge_axis I) as (_ & e & -> & He & _).
    destruct (root_between exact rounds_exact e) as (r & -> & Hr).
    { unfold exact in He. lra. }
    cbn [nmul]. destruct (Req_dec_T r 0); [lra |].
    destruct (Rlt_dec 0 r); [reflexivity | lra]. }
  split; [reflexivity |]. split; [exact E1 |]. split; [exact B1 |]. split.
  { unfold orbit_points. apply Forall_map, Forall_forall. intros i _.
    unfold orbit_point. cbv zeta. rewrite B1. cbn [vx nmul]. apply nsub_NaN_r. }
  split; [reflexivity |]. split; [exact HM |]. split; [exact A2 |].
  split; [exact B2 |].
  unfold orbit_points. apply Forall_map, Forall_forall. intros i Hi.
  apply in_seq in Hi.
  unfold orbit_point. cbv zeta. rewrite A2, B2. cbn [vx].
  pose proof (theta_finite exact rounds_exact i ltac:(lia)) as Hth.
  destruct (theta exact i) as [t | |]; try contradiction. cbn [Math_sin Math_cos].
  assert (argPeriastron exact huge_axis = Fin 0) as ->.
  { unfold argPeriastron. cbn [pl_orblper huge_axis js_or].
    destruct (degree_between exact rounds_exact) as (q & -> & Hq).
    cbn [nmul]. rewrite (fl_finite exact) by (rewrite Rmult_0_l, Rabs_R0; lra).
    unfold exact. f_equal. ring. }
  cbn [Math_sin Math_cos]. rewrite sin_0.
  assert (forall y, nmul exact (nmul exact (Inf true) (Fin y)) (Fin 0) = NaN) as Hy.
  { intros y. cbn [nmul]. destruct (Req_dec_T y 0); cbn [nmul]; [reflexivity |].
    destruct (Req_dec_T 0 0) as [_ | N]; [reflexivity | now contradiction N]. }
  rewrite Hy. apply nsub_NaN_r.
Qed.

End OrbitalPathsDoubleFacts.

(** ** The star view: what is built and how it is framed *)

Module StarSceneMore.

Import JSReal JSRealFacts StarScene StarSetup.
Local Open Scope R_scope.

(** X6: The loop adds one orbit line and one planet mesh per record that passes
    the guard, in the order of the records; the meshes carry the display
    names of those records. *)
Theorem one_mesh_per_kept_record
  (generate3DOrbit : OrbitParams -> list Vector3)
  (getPeriapsisPosition : OrbitParams -> Vector3)
  (planets : list PlanetRecord) :
  let kept := filter (fun p => negb (skipped p)) planets in
  map mesh_name (planetMeshes generate3DOrbit getPeriapsisPosition planets)
    = map display_name kept
  /\ map mesh_radius (planetMeshes generate3DOrbit getPeriapsisPosition planets)
    = map planetRadius_scene kept
  /\ orbitLines generate3DOrbit getPeriapsisPosition planets
    = map (fun p => map to_scene (generate3DOrbit (orbit_params p))) kept
  /\ length (build generate3DOrbit getPeriapsisPosition planets)
    = (2 * length kept)%nat.
Proof.
  unfold planetMeshes, orbitLines, build, forEach.
  set (two := 2%nat). generalize 0%nat.
  induction planets as [| p t IH]; intros i; simpl.
  - subst two. now repeat split.
  - destruct (IH (S i)) as (H1 & H2 & H3 & H4).
    rewrite !flat_map_app, !map_app, length_app.
    unfold add_planet at 1 3 5 7. destruct (skipped p); simpl.
    + now repeat split.
    + rewrite H1, H2, H3, H4. subst two. repeat split. lia.
Qed.

(** X7: A planet of up to 234 Earth radii, or with no radius given, is drawn
    at the floor size 0.5; from 235 Earth radii on the size is the scaled
    radius. *)
Theorem planet_size_floor (planet : PlanetRecord) :
  (forall r, pl_rade planet = Some r -> r <= 234 -> planetRadius_scene planet = 0.5)
  /\ (pl_rade planet = None -> planetRadius_scene planet = 0.5)
  /\ (forall r, pl_rade planet = Some r -> 235 <= r ->
        planetRadius_scene planet = r * 0.0000426 * 100 * 0.5).
Proof.
  unfold planetRadius_scene, EARTH_RADIUS_AU, AU_TO_SCENE_UNITS, SYSTEM_SCALE,
    MIN_PLANET_SIZE, Rltb.
  split; [| split].
  - intros r Hr Hle. rewrite Hr. unfold js_or.
    destruct (Req_dec_T r 0);
      match goal with |- context [Rlt_dec ?a ?b] => destruct (Rlt_dec a b) end;
      lra.
  - intros Hr. rewrite Hr. simpl.
    match goal with |- context [Rlt_dec ?a ?b] => destruct (Rlt_dec a b) end; lra.
  - intros r Hr Hge. rewrite Hr. rewrite js_or_truthy by lra.
    match goal with |- context [Rlt_dec ?a ?b] => destruct (Rlt_dec a b) end; lra.
Qed.

Section MaxOrbit.

Let pick (m : R) (planet : PlanetRecord) : R :=
  if negb (js_not (pl_orbsmax planet)) && Rltb m (js_or (pl_orbsmax planet) 0)
  then js_or (pl_orbsmax planet) 0 else m.

Lemma pick_cases (m : R) (planet : PlanetRecord) :
  (pick m planet = m /\ forall a, pl_orbsmax planet = Some a -> a <= m \/ a = 0)
  \/ (m < pick m planet /\ pl_orbsmax planet = Some (pick m planet)).
Proof.
  unfold pick, js_not, js_or, Rltb.
  destruct (pl_orbsmax planet) as [a |]; simpl.
  - destruct (Req_dec_T a 0) as [E | N]; simpl.
    + left. split; [reflexivity |]. intros b Hb. injection Hb as <-. now right.
    + destruct (Rlt_dec m a).
      * right. now split.
      * left. split; [reflexivity |]. intros b Hb. injection Hb as <-. left. lra.
  - left. split; [reflexivity |]. intros a Ha. discriminate.
Qed.

Lemma fold_pick (planets : list PlanetRecord) (m0 : R) :
  0 <= m0 ->
  let m := fold_left pick planets m0 in
  m0 <= m /\
  (forall p a, In p planets -> pl_orbsmax p = Some a -> a <= m) /\
  (m = m0 \/ exists p, In p planets /\ pl_orbsmax p = Some m).
Proof.
  revert m0. induction planets as [| p t IH]; intros m0 H0 m; subst m; simpl.
  - split; [lra |]. split; [intros p a [] | now left].
  - assert (m0 <= pick m0 p) as Hle
        by (destruct (pick_cases m0 p) as [(E & _) | (L & _)]; lra).
    destruct (IH (pick m0 p) ltac:(lra)) as (H1 & H2 & H3).
    split; [lra |]. split.
    + intros q a [<- | Hq] Ha; [| now apply (H2 q a)].
      destruct (pick_cases m0 p) as [(E & Hb) | (L & Hs)].
      * destruct (Hb a Ha); lra.
      * rewrite Hs in Ha. injection Ha as <-. exact H1.
    + destruct H3 as [E | (q & Hq & Hs)].
      * destruct (pick_cases m0 p) as [(E' & _) | (L & Hs)].
        -- left. congruence.
        -- right. exists p. split; [now left | congruence].
      * right. exists q. split; [now right | exact Hs].
Qed.

End MaxOrbit.

Lemma maxOrbitRadius_AU_bounds (planets : list PlanetRecord) :
  0 < maxOrbitRadius_AU planets /\
  (forall p a, In p planets -> pl_orbsmax p = Some a -> a <= maxOrbitRadius_AU planets) /\
  (maxOrbitRadius_AU planets = 2 \/
   exists p, In p planets /\ pl_orbsmax p = Some (maxOrbitRadius_AU planets)).
Proof.
  unfold maxOrbitRadius_AU.
  destruct (fold_pick planets 0 (Rle_refl 0)) as (H1 & H2 & H3). cbv zeta in *.
  match goal with |- context [Req_dec_T ?m 0] => destruct (Req_dec_T m 0) as [E | N] end.
  - split; [lra |]. split; [| now left].
    intros p a Hp Ha. specialize (H2 p a Hp Ha). lra.
  - split; [lra |]. split; [exact H2 |].
    destruct H3 as [E | H3]; [contradiction | now right].
Qed.

(** X8: [maxOrbitRadius_AU] is positive and at least every semi-major axis of
    the list; it is the axis of one of the records, or the default 2. *)
Theorem max_orbit_radius (planets : list PlanetRecord) :
  0 < maxOrbitRadius_AU planets /\
  (forall p a, In p planets -> pl_orbsmax p = Some a -> a <= maxOrbitRadius_AU planets) /\
  (maxOrbitRadius_AU planets = 2 \/
   exists p, In p planets /\ pl_orbsmax p = Some (maxOrbitRadius_AU planets)).
Proof. exact (maxOrbitRadius_AU_bounds planets). Qed.

(** X9: The camera starts within the zoom limits of the controls, and farther
    from the star than the scaled semi-major axis of every planet drawn. *)
Theorem initial_camera_frames_system (planets : list PlanetRecord) :
  let d2 := norm2 (camera_position planets) in
  0 < minDistance planets < maxDistance planets /\
  minDistance planets * minDistance planets < d2 /\
  d2 < maxDistance planets * maxDistance planets /\
  (forall p a, In p planets -> pl_orbsmax p = Some a ->
     a * AU_TO_SCENE_UNITS * SYSTEM_SCALE <= systemRadius planets / 2) /\
  systemRadius planets * systemRadius planets < d2.
Proof.
  destruct (maxOrbitRadius_AU_bounds planets) as (Hpos & Hmax & _).
  unfold norm2, camera_position, minDistance, maxDistance, cameraDistance, systemRadius,
    AU_TO_SCENE_UNITS, SYSTEM_SCALE.
  set (M := maxOrbitRadius_AU planets) in *. cbv zeta.
  assert (0 < M * M) by nra.
  repeat split; try nra.
  intros p a Hp Ha. specialize (Hmax p a Hp Ha). lra.
Qed.

End StarSceneMore.

(** ** The solar overview: orbits, focus distance, pointer *)

Module SolarGeometryFacts.

Import JSReal SolarGeometry.
Local Open Scope R_scope.




(** X11: Focusing a planet of radius [r >= 0] ends with the camera at
    [1.5 * max(8 r, 5)] from the planet: beyond the controls' minimum
    distance, outside the planet's hit sphere, and within the maximum
    distance as long as [r <= 400]. *)
Theorem focus_camera_clear_of_planet (r : R) :
  0 <= r ->
  let d2 := StarSetup.norm2 (focus_offset r) in
  d2 = (1.5 * focus_distance r) * (1.5 * focus_distance r) /\
  controls_minDistance * controls_minDistance < d2 /\
  SolarSizes.hitboxRadius r * SolarSizes.hitboxRadius r < d2 /\
  (r <= 400 -> d2 <= controls_maxDistance * controls_maxDistance).
Proof.
  intros Hr d2. subst d2.
  assert (5 <= focus_distance r /\ r * 8 <= focus_distance r
          /\ (focus_distance r = 5 \/ focus_distance r = r * 8)) as (H5 & H8 & Hd).
  { unfold focus_distance, Rmax. destruct (Rle_dec (r * 8) 5); lra. }
  assert (2.5 <= SolarSizes.hitboxRadius r
          /\ (SolarSizes.hitboxRadius r = 2.5 \/ SolarSizes.hitboxRadius r = r * 3))
    as (Hh & Hh').
  { unfold SolarSizes.hitboxRadius, Rmax. destruct (Rle_dec (r * 3) 2.5); lra. }
  unfold focus_offset, controls_minDistance, controls_maxDistance.
  cbn [StarSetup.norm2].
  set (d := focus_distance r) in *. set (h := SolarSizes.hitboxRadius r) in *.
  clearbody d h. split; [nra |]. split; [nra |]. split.
  - assert (h < 1.5 * d) by (destruct Hh', Hd; lra). nra.
  - intros Hb. assert (d <= 3200) by (destruct Hd; lra). nra.
Qed.

Lemma focus_camera_clear_of_planet_witness :
  SolarSizes.hitboxRadius 1 * SolarSizes.hitboxRadius 1
  < StarSetup.norm2 (focus_offset 1).
Proof.
  assert (0 <= 1) as H by lra.
  apply (focus_camera_clear_of_planet 1 H).
Defined.

(** X12: A pointer inside the canvas rectangle has both normalised coordinates
    in [-1, 1]; the left edge maps to -1 and the right edge to 1, the top
    edge to 1 and the bottom edge to -1, and different pointer positions
    give different coordinates. *)
Theorem mouse_ndc_in_range (clientX clientY : R) (rect : Rect) :
  0 < width rect -> 0 < height rect ->
  left rect <= clientX <= left rect + width rect ->
  top rect <= clientY <= top rect + height rect ->
  -1 <= fst (mouse_ndc clientX clientY rect) <= 1 /\
  -1 <= snd (mouse_ndc clientX clientY rect) <= 1 /\
  mouse_ndc (left rect) (top rect) rect = (-1, 1) /\
  mouse_ndc (left rect + width rect) (top rect + height rect) rect = (1, -1) /\
  (forall x' y', mouse_ndc x' y' rect = mouse_ndc clientX clientY rect ->
     x' = clientX /\ y' = clientY).
Proof.
  intros Hw Hh Hx Hy. unfold mouse_ndc. simpl.
  set (w := width rect) in *. set (h := height rect) in *.
  set (l := left rect) in *. set (t := top rect) in *.
  assert (0 <= (clientX - l) / w <= 1) as Hu.
  { split; [apply Rmult_le_pos; [lra | left; now apply Rinv_0_lt_compat] |].
    apply Rmult_le_reg_r with w; [exact Hw |]. field_simplify; lra. }
  assert (0 <= (clientY - t) / h <= 1) as Hv.
  { split; [apply Rmult_le_pos; [lra | left; now apply Rinv_0_lt_compat] |].
    apply Rmult_le_reg_r with h; [exact Hh |]. field_simplify; lra. }
  split; [lra |]. split; [lra |]. split; [| split].
  - f_equal; field; lra.
  - f_equal; field; lra.
  - intros x' y' E. injection E as Ex Ey.
    assert ((x' - l) / w = (clientX - l) / w) as Ex' by lra.
    assert ((y' - t) / h = (clientY - t) / h) as Ey' by lra.
    apply (f_equal (fun v => v * w)) in Ex'. apply (f_equal (fun v => v * h)) in Ey'.
    field_simplify in Ex'; [| lra | lra]. field_simplify in Ey'; [| lra | lra].
    split; lra.
Qed.

Lemma mouse_ndc_in_range_witness :
  mouse_ndc 0 0 (mkRect 0 0 800 600) = (-1, 1).
Proof.
  assert (0 < 800) as H1 by lra. assert (0 < 600) as H2 by lra.
  assert (0 <= 0 <= 0 + 800) as H3 by lra. assert (0 <= 0 <= 0 + 600) as H4 by lra.
  apply (mouse_ndc_in_range 0 0 (mkRect 0 0 800 600) H1 H2 H3 H4).
Defined.

End SolarGeometryFacts.

(** ** The solar overview: more on the transitions *)

Module SolarCameraMore.

Import Floats JSFloat SolarSystemRenderer SolarCameraFacts.
Local Open Scope float_scope.
Set Warnings "-inexact-float".

(** What no callback touches. *)
Lemma run_callback_keeps (a : Anim) (s : State) :
  focusedPlanet (run_callback a s) = focusedPlanet s /\
  systemData (run_callback a s) = systemData s /\
  systemMarkers (run_callback a s) = systemMarkers s.
Proof.
  unfold run_callback. destruct (kind a) as [| sys |].
  - destruct (progress a + 0.04 <? 1); now simpl.
  - destruct (progress a + 1 / 60 <? 1); now simpl.
  - destruct (progress a + 0.04 <? 1); now simpl.
Qed.

Lemma frame_keeps (s : State) :
  one_live s ->
  focusedPlanet (frame s) = focusedPlanet s /\
  systemData (frame s) = systemData s /\
  systemMarkers (frame s) = systemMarkers s.
Proof.
  unfold frame. intros [(Hp & _) | (h & a & Hp & _)]; rewrite Hp; simpl.
  - now repeat split.
  - exact (run_callback_keeps a (set_frames [] (next_handle s) (animationFrameRef s) s)).
Qed.

Lemma frames_keep (n : nat) (s : State) :
  one_live s ->
  focusedPlanet (run s (repeat Frame n)) = focusedPlanet s /\
  systemData (run s (repeat Frame n)) = systemData s.
Proof.
  revert s. induction n as [| n IH]; intros s H1; [now split |].
  change (repeat Frame (S n)) with (Frame :: repeat Frame n).
  change (run s (Frame :: repeat Frame n)) with (run (step s Frame) (repeat Frame n)).
  destruct (IH (step s Frame) (step_one_live s Frame H1)) as (E1 & E2).
  rewrite E1, E2. unfold step. destruct (currentView s); [| now split].
  destruct (frame_keeps s H1) as (F1 & F2 & _). now split.
Qed.

Lemma run_cons (e : Event) (es : list Event) (s : State) :
  run s (e :: es) = run (step s e) es.
Proof. reflexivity. Qed.

Lemma step_solar (e : Event) (s : State) :
  currentView s = solar ->
  step s e = match e with
             | Frame => frame s
             | Click h => onClick h s
             | MouseMove h => onMouseMove h s
             | Back => handleBackToSystem s
             end.
Proof. intros Hv. unfold step. now rewrite Hv. Qed.

(** A state in which nothing waits is left alone by a frame. *)
Lemma frame_idle (s : State) :
  pending s = [] -> frame s = s.
Proof. intros Hp. unfold frame. rewrite Hp. destruct s. simpl in *. now subst. Qed.

Lemma frames_idle (n : nat) (s : State) :
  pending s = [] -> run s (repeat Frame n) = s.
Proof.
  intros Hp. induction n as [| n IH]; [reflexivity |].
  rewrite run_frames_snoc, IH. unfold step.
  destruct (currentView s); [now apply frame_idle | reflexivity].
Qed.

(** X14: Whatever the user does in the overview and however the frames fall, at
    most one camera callback waits for the next frame, and
    [animationFrameRef] is [null] exactly when none does. *)
Theorem overview_one_transition_at_a_time (s : State) (es : list Event) :
  one_live s ->
  (length (pending (run s es)) <= 1)%nat /\
  (animationFrameRef (run s es) = None <-> pending (run s es) = []).
Proof.
  intros H. destruct (run_one_live es s H) as [(Hp & Hr) | (h & a & Hp & Hr)];
    rewrite Hp, Hr; simpl.
  - split; [lia | now split].
  - split; [lia | split; discriminate].
Qed.

Lemma overview_one_transition_at_a_time_witness :
  (length (pending (run SolarSamples.initial
                      [Click SolarSamples.on_earth; Frame; Click SolarSamples.on_marker;
                       Frame; Back])) <= 1)%nat.
Proof.
  assert (one_live SolarSamples.initial) as H by (left; split; reflexivity).
  apply (overview_one_transition_at_a_time SolarSamples.initial _ H).
Defined.

(** While a callback goes on, the frames leave the flag and the focus as
    they are. *)
Lemma frames_continue_flag (k : AnimKind) (sp ep st et : Vec3) (n j : nat) (s : State) :
  in_flight (mkAnim k sp ep st et (prog (increment k) (S j))) s ->
  (forall i, (S j < i <= S j + n)%nat -> (prog (increment k) i <? 1) = true) ->
  isTransitioning (run s (repeat Frame n)) = isTransitioning s /\
  focusedPlanet (run s (repeat Frame n)) = focusedPlanet s.
Proof.
  intros Hf Hlt.
  assert (one_live s) as L by (destruct Hf as (_ & h & Hp & Hr); right; eauto).
  split; [| apply (frames_keep n s L)].
  induction n as [| n IH]; [reflexivity |].
  rewrite run_frames_snoc.
  destruct (frames_continue k sp ep st et n j s Hf) as (Hf' & _).
  { intros i Hi. apply Hlt. lia. }
  set (s1 := run s (repeat Frame n)) in *.
  assert (step s1 Frame = frame s1) as ->.
  { unfold step. destruct Hf' as (Hv & _). now rewrite Hv. }
  assert ((prog (increment k) (S j + n) + increment k <? 1) = true) as Hlt'.
  { apply (Hlt (S (S j + n))). lia. }
  destruct (frame_continue _ s1 Hf' Hlt') as (_ & _ & _ & _ & _ & Hflag).
  rewrite Hflag. apply IH. intros i Hi. apply Hlt. lia.
Qed.

(** X13: Refocusing in mid-flight: planet A is focused and, [k < 24] frames
    later, planet B. The second click calls off the first callback, whose
    completion never runs, and starts a callback of its own, heading for
    B's end pose: nothing is logged on the next 23 frames, while the flag
    stays up and the one callback waits, and on the 24th frame after the
    second click the one completion is logged, the flag goes down and
    nothing is left waiting. The focus is B throughout. *)
Theorem refocus_one_completion (s : State) (nA nB : string) (posA posB : Vec3)
  (rA rB : float) (k : nat) :
  one_live s -> currentView s = solar -> (k < 24)%nat ->
  let s1 := run (focusPlanet nA posA rA s) (repeat Frame k) in
  let dB := Math_max (rB * 8) 5 in
  let endB := mkVec3 (x posB + dB) (y posB + dB * 0.5) (z posB + dB) in
  let s2 := focusPlanet nB posB rB s1 in
  let s3 := run s2 (repeat Frame 24) in
  (exists startPos startTarget,
     in_flight (mkAnim AnimateCamera startPos endB startTarget posB (prog 0.04 1)) s2) /\
  console s1 = console s /\
  (forall n, (n < 24)%nat ->
     console (run s2 (repeat Frame n)) = console s /\
     length (pending (run s2 (repeat Frame n))) = 1%nat /\
     isTransitioning (run s2 (repeat Frame n)) = true /\
     focusedPlanet (run s2 (repeat Frame n)) = Some nB) /\
  console s3 = CameraAnimationComplete :: console s /\
  pending s3 = [] /\ animationFrameRef s3 = None /\
  isTransitioning s3 = false /\ focusedPlanet s3 = Some nB.
Proof.
  intros H1 Hv Hk s1 dB endB s2 s3.
  destruct (focusPlanet_supersedes nA posA rA s H1 Hv) as (FA & CA & _).
  destruct (focusPlanet_completes _ _ FA eq_refl eq_refl) as (_ & _ & _ & _ & _ & _ & HA).
  destruct (HA k Hk) as (C1 & a' & F1). fold s1 in C1, F1.
  assert (one_live s1) as L1.
  { destruct F1 as (_ & h & Hp & Hr). right. now exists h, a'. }
  destruct (focusPlanet_supersedes nB posB rB s1 L1 (proj1 F1)) as (FB & CB & FocB).
  fold dB endB s2 in FB, CB, FocB.
  destruct (focusPlanet_completes _ _ FB eq_refl eq_refl)
    as (_ & _ & E3 & E3' & E4 & E5 & HB).
  fold s3 in E3, E3', E4, E5.
  assert (one_live s2) as L2.
  { destruct FB as (_ & h & Hp & Hr). right. eauto. }
  assert (isTransitioning s2 = true) as Flag2.
  { subst s2. unfold focusPlanet.
    rewrite run_callback_continue by reflexivity. cbn.
    unfold cancel_existing. cbn. now destruct (animationFrameRef s1). }
  destruct camera_progress as (Hlt & _).
  split; [now exists (camera_position s1), (controls_target s1) |].
  split; [congruence |]. split.
  { intros n Hn. destruct (HB n Hn) as (Cn & an & Fn).
    destruct (frames_continue_flag AnimateCamera (camera_position s1) endB
                (controls_target s1) posB n 0 s2 FB) as (Fl & Fo).
    { intros i Hi. apply Hlt. lia. }
    split; [congruence |]. split.
    - destruct Fn as (_ & h & Hp & _). now rewrite Hp.
    - split; congruence. }
  split; [rewrite E5; congruence |].
  split; [exact E3 |]. split; [exact E3' |]. split; [exact E4 |].
  subst s3. rewrite (proj1 (frames_keep 24 s2 L2)). exact FocB.
Qed.

(** Earth is focused and, three frames later, Mars: one completion. *)
Lemma refocus_one_completion_witness :
  console
    (run (focusPlanet "Mars" (mkVec3 0 0 60.8) 0.15
            (run (focusPlanet "Earth" (mkVec3 40 0 0) 0.15 SolarSamples.initial)
                 (repeat Frame 3)))
         (repeat Frame 24))
  = CameraAnimationComplete :: console SolarSamples.initial.
Proof.
  assert (one_live SolarSamples.initial) as H by (left; split; reflexivity).
  assert (3 < 24)%nat as Hk by lia.
  pose proof (refocus_one_completion SolarSamples.initial "Earth" "Mars"
                (mkVec3 40 0 0) (mkVec3 0 0 60.8) 0.15 0.15 3 H eq_refl Hk) as T.
  cbv zeta in T. exact (proj1 (proj2 (proj2 (proj2 T)))).
Defined.

(** The callback of [handleBackToSystem], left alone, ends on its 25th
    call, 24 frames after the button was pressed, and logs nothing. *)
Lemma back_callback_completes (a : Anim) (s : State) :
  in_flight a s -> kind a = AnimateBack -> progress a = prog 0.04 1 ->
  let s' := run s (repeat Frame 24) in
  pending s' = [] /\ animationFrameRef s' = None /\
  isTransitioning s' = false /\
  console s' = console s /\
  (forall n, (n < 24)%nat ->
     console (run s (repeat Frame n)) = console s /\
     length (pending (run s (repeat Frame n))) = 1%nat /\
     isTransitioning (run s (repeat Frame n)) = isTransitioning s).
Proof.
  intros Hf Hk Hp s'.
  destruct a as [k sp ep st et p]. simpl in Hk, Hp. subst k p.
  destruct camera_progress as (Hlt & Hge).
  assert (forall n, (n < 24)%nat ->
            in_flight (mkAnim AnimateBack sp ep st et (prog 0.04 (1 + n)))
                      (run s (repeat Frame n))
            /\ console (run s (repeat Frame n)) = console s
            /\ isTransitioning (run s (repeat Frame n)) = isTransitioning s) as Hrun.
  { intros n Hn.
    destruct (frames_continue AnimateBack sp ep st et n 0 s Hf) as (H1 & H2 & _).
    { intros i Hi. apply Hlt. lia. }
    destruct (frames_continue_flag AnimateBack sp ep st et n 0 s Hf) as (H3 & _).
    { intros i Hi. apply Hlt. lia. }
    split; [exact H1 | split; [exact H2 | exact H3]]. }
  destruct (Hrun 23%nat ltac:(lia)) as (Hf23 & Hc23 & _).
  assert (s' = frame (run s (repeat Frame 23))) as ->.
  { subst s'. rewrite run_frames_snoc. unfold step.
    destruct Hf23 as (Hv & _). now rewrite Hv. }
  destruct (frame_back_done _ _ Hf23 eq_refl Hge) as (E1 & E2 & E3 & E4 & _).
  split; [exact E1 |]. split; [exact E2 |]. split; [exact E3 |].
  split; [congruence |].
  intros n Hn. destruct (Hrun n Hn) as ((_ & h & Hp & _) & C & Fl).
  split; [exact C |]. split; [now rewrite Hp | exact Fl].
Qed.

(** X15: "Back to System" in the overview clears the focus at once and
    calls off whatever was in flight. For the next 23 frames its callback
    waits with the flag up; on the 24th frame it ends: the flag goes down
    and nothing is left waiting. Unlike the end of [focusPlanet]'s callback,
    this one is not logged. *)
Theorem back_to_system_completes (s : State) :
  one_live s -> currentView s = solar ->
  (forall n, (n < 24)%nat ->
     let s' := run s (Back :: repeat Frame n) in
     focusedPlanet s' = None /\ isTransitioning s' = true /\
     length (pending s') = 1%nat /\ console s' = console s) /\
  let s' := run s (Back :: repeat Frame 24) in
  focusedPlanet s' = None /\
  isTransitioning s' = false /\
  pending s' = [] /\ animationFrameRef s' = None /\
  console s' = console s /\
  currentView s' = solar /\ selectedSystem s' = selectedSystem s.
Proof.
  intros H1 Hv.
  assert (forall n, run s (Back :: repeat Frame n)
                    = run (handleBackToSystem s) (repeat Frame n)) as E.
  { intros n. now rewrite run_cons, step_solar. }
  set (s1 := cancel_existing (setIsTransitioning true (setFocusedPlanet None s))).
  assert (pending s1 = []) as Hp by (subst s1; now apply cancel_existing_clears).
  destruct (cancel_existing_view (setIsTransitioning true (setFocusedPlanet None s)))
    as (V1 & V2 & _ & _ & V5). fold s1 in V1, V2, V5. simpl in V1, V2, V5.
  assert (focusedPlanet s1 = None /\ isTransitioning s1 = true) as (Hf1 & Hfl1).
  { subst s1. unfold cancel_existing. simpl. now destruct (animationFrameRef s). }
  assert (handleBackToSystem s
          = run_callback (mkAnim AnimateBack (camera_position s1) initialCameraPos
                                 (controls_target s1) (mkVec3 0 0 0) 0) s1) as Eb
      by reflexivity.
  destruct (start_in_flight AnimateBack (camera_position s1) initialCameraPos
              (controls_target s1) (mkVec3 0 0 0) s1 Hp (eq_trans V1 Hv))
    as (F & _ & _ & C & Sel).
  rewrite <- Eb in F, C, Sel.
  assert (isTransitioning (handleBackToSystem s) = true) as Fl.
  { rewrite Eb, run_callback_continue by reflexivity. exact Hfl1. }
  assert (focusedPlanet (handleBackToSystem s) = None) as Fo.
  { rewrite Eb. now rewrite (proj1 (run_callback_keeps _ _)). }
  destruct (back_callback_completes _ _ F eq_refl eq_refl)
    as (E1 & E2 & E3 & E4 & Hn).
  assert (one_live (handleBackToSystem s)) as L.
  { destruct F as (_ & h & Hp' & Hr'). right. eauto. }
  split.
  - intros n Hlt s'. subst s'. rewrite E.
    destruct (Hn n Hlt) as (N1 & N2 & N3).
    rewrite (proj1 (frames_keep n _ L)).
    split; [exact Fo |]. split; [congruence |]. split; [exact N2 | congruence].
  - intros s'. subst s'. rewrite E.
    rewrite (proj1 (frames_keep 24 _ L)).
    split; [exact Fo |]. split; [exact E3 |]. split; [exact E1 |].
    split; [exact E2 |]. split; [congruence |].
    split.
    + destruct (frames_continue AnimateBack (camera_position s1) initialCameraPos
                  (controls_target s1) (mkVec3 0 0 0) 23 0 _ F) as (F23 & _ & S23 & _).
      { intros i Hi. apply (proj1 camera_progress). lia. }
      rewrite run_frames_snoc. unfold step. rewrite (proj1 F23).
      now destruct (frame_back_done _ _ F23 eq_refl (proj2 camera_progress))
        as (_ & _ & _ & _ & _ & _ & V).
    + destruct (frames_continue AnimateBack (camera_position s1) initialCameraPos
                  (controls_target s1) (mkVec3 0 0 0) 23 0 _ F) as (F23 & _ & S23 & _).
      { intros i Hi. apply (proj1 camera_progress). lia. }
      rewrite run_frames_snoc. unfold step. rewrite (proj1 F23).
      destruct (frame_back_done _ _ F23 eq_refl (proj2 camera_progress))
        as (_ & _ & _ & _ & _ & S24 & _).
      rewrite S24, S23, Sel. exact V2.
Qed.

(** Earth is focused; once that transition has ended, the button is
    pressed. *)
Lemma back_to_system_completes_witness :
  isTransitioning
    (run (run SolarSamples.initial (Click SolarSamples.on_earth :: repeat Frame 24))
         (Back :: repeat Frame 24)) = false.
Proof.
  assert (one_live (run SolarSamples.initial
                      (Click SolarSamples.on_earth :: repeat Frame 24))) as H.
  { left. split; vm_compute; reflexivity. }
  assert (currentView (run SolarSamples.initial
                         (Click SolarSamples.on_earth :: repeat Frame 24)) = solar) as Hv.
  { vm_compute. reflexivity. }
  pose proof (back_to_system_completes _ H Hv) as (_ & T).
  cbv zeta in T. apply T.
Defined.

(** While only [animateCamera] waits, frames leave the view alone. *)
Definition camera_only (s : State) : Prop :=
  pending s = [] \/ exists h a, pending s = [(h, a)] /\ kind a = AnimateCamera.

Lemma frame_camera_only (s : State) :
  camera_only s ->
  camera_only (frame s) /\
  currentView (frame s) = currentView s /\
  selectedSystem (frame s) = selectedSystem s.
Proof.
  intros [Hp | (h & a & Hp & Hk)].
  - rewrite frame_idle by exact Hp. split; [now left | now split].
  - unfold frame. rewrite Hp. cbn [fold_left snd].
    unfold run_callback. rewrite Hk.
    destruct (progress a + 0.04 <? 1); cbn.
    + split; [| now split]. right. eexists. eexists. split; [reflexivity | exact Hk].
    + split; [now left | now split].
Qed.

Lemma frames_camera_only (k : nat) (s : State) :
  camera_only s ->
  currentView (run s (repeat Frame k)) = currentView s /\
  selectedSystem (run s (repeat Frame k)) = selectedSystem s.
Proof.
  revert s. induction k as [| k IH]; intros s Hc; [now split |].
  change (repeat Frame (S k)) with (Frame :: repeat Frame k). rewrite run_cons.
  unfold step. destruct (currentView s) eqn:Hv.
  - destruct (frame_camera_only s Hc) as (Hc' & V & S1).
    destruct (IH (frame s) Hc') as (V' & S'). split; congruence.
  - destruct (IH s Hc) as (V' & S'). split; congruence.
Qed.

(** X16: A click on a planet calls off whatever was in flight, a transition to
    a system included: on no later frame is the view switched. *)
Theorem planet_click_calls_off_view_switch (s : State) (h : Hits)
  (i : Intersection HitboxObj) (rest : list (Intersection HitboxObj)) (k : nat) :
  one_live s -> currentView s = solar ->
  hitboxIntersects h = i :: rest ->
  currentView (run s (Click h :: repeat Frame k)) = solar /\
  selectedSystem (run s (Click h :: repeat Frame k)) = selectedSystem s /\
  focusedPlanet (run s (Click h :: repeat Frame k)) = Some (hitbox_name (object i)).
Proof.
  intros H1 Hv Hh.
  assert (run s (Click h :: repeat Frame k)
          = run (focusPlanet (hitbox_name (object i))
                   (planet_position (parentPlanet (object i)))
                   (hitbox_radius (object i)) s) (repeat Frame k)) as E.
  { rewrite run_cons, step_solar by exact Hv. unfold onClick. now rewrite Hh. }
  rewrite E. clear E.
  destruct (focusPlanet_supersedes (hitbox_name (object i))
              (planet_position (parentPlanet (object i)))
              (hitbox_radius (object i)) s H1 Hv) as (F & _ & Hfoc).
  set (s1 := focusPlanet _ _ _ s) in *.
  assert (selectedSystem s1 = selectedSystem s) as Hsel.
  { subst s1. unfold focusPlanet.
    match goal with
    | |- context [run_callback ?a ?s0] =>
        rewrite (proj2 (first_call_view a s0 eq_refl))
    end.
    now rewrite (proj1 (proj2 (cancel_existing_view _))). }
  clearbody s1.
  assert (one_live s1) as L by (destruct F as (_ & h' & Hp' & Hr'); right; eauto).
  assert (camera_only s1) as Hc.
  { destruct F as (_ & h' & Hp' & _). right. eexists. eexists. split; [exact Hp' | reflexivity]. }
  destruct (frames_keep k s1 L) as (K & _).
  destruct (frames_camera_only k s1 Hc) as (R1 & R2).
  destruct F as (V & _).
  repeat split; congruence.
Qed.

Lemma planet_click_calls_off_view_switch_witness :
  currentView (run (run SolarSamples.initial [Click SolarSamples.on_marker; Frame])
                 (Click SolarSamples.on_earth :: repeat Frame 100)) = solar.
Proof.
  assert (one_live SolarSamples.initial) as H by (left; split; reflexivity).
  pose proof (run_one_live [Click SolarSamples.on_marker; Frame] _ H) as H1.
  assert (currentView (run SolarSamples.initial [Click SolarSamples.on_marker; Frame])
          = solar) as H2 by reflexivity.
  apply (planet_click_calls_off_view_switch _ SolarSamples.on_earth
           (mkIntersection 380 SolarSamples.earth_hitbox)
           [mkIntersection 410 SolarSamples.mars_hitbox] 100 H1 H2 eq_refl).
Defined.

(** *** The transition flag *)

(** In the overview, [isTransitioning] is up exactly while a callback
    waits. *)
Definition flag_tracks_flight (s : State) : Prop :=
  currentView s = solar -> (isTransitioning s = true <-> pending s <> []).

Lemma run_callback_flag (a : Anim) (s : State) :
  pending s = [] -> isTransitioning s = true ->
  flag_tracks_flight (run_callback a s).
Proof.
  intros Hp Ht. unfold flag_tracks_flight, run_callback.
  destruct (kind a) as [| sys |].
  - destruct (progress a + 0.04 <? 1); cbn; rewrite ?Hp; intros _.
    + split; [intros _; discriminate | intros _; exact Ht].
    + split; [discriminate | intros N; now contradiction N].
  - destruct (progress a + 1 / 60 <? 1); cbn; rewrite ?Hp.
    + intros _. split; [intros _; discriminate | intros _; exact Ht].
    + discriminate.
  - destruct (progress a + 0.04 <? 1); cbn; rewrite ?Hp; intros _.
    + split; [intros _; discriminate | intros _; exact Ht].
    + split; [discriminate | intros N; now contradiction N].
Qed.

Lemma cancel_existing_flag (s : State) :
  isTransitioning (cancel_existing s) = isTransitioning s.
Proof. unfold cancel_existing. now destruct (animationFrameRef s). Qed.

Lemma step_flag (s : State) (e : Event) :
  one_live s -> flag_tracks_flight s -> flag_tracks_flight (step s e).
Proof.
  intros H1 Hf. unfold step. destruct (currentView s) eqn:Hv; [| exact Hf].
  specialize (Hf Hv).
  destruct e as [| h | h |].
  - destruct H1 as [(Hp & _) | (h & a & Hp & _)].
    + rewrite frame_idle by exact Hp. intros _. exact Hf.
    + unfold frame. rewrite Hp. cbn [fold_left snd].
      apply run_callback_flag; [reflexivity |].
      cbn. apply Hf. rewrite Hp. discriminate.
  - unfold onClick.
    destruct (hitboxIntersects h) as [| i ?].
    2:{ unfold focusPlanet. apply run_callback_flag;
          [now apply cancel_existing_clears | now rewrite cancel_existing_flag]. }
    destruct (planetIntersects h) as [| i ?].
    2:{ unfold focusPlanet. apply run_callback_flag;
          [now apply cancel_existing_clears | now rewrite cancel_existing_flag]. }
    destruct (systemIntersects h) as [| i ?]; [intros _; exact Hf |].
    destruct (nth_error (systemData s) (systemIndex (object i))) as [sys |];
      [| intros _; exact Hf].
    destruct (nth_error (systemMarkers s) (systemIndex (object i))) as [m |];
      [| intros _; exact Hf].
    apply run_callback_flag;
      [now apply cancel_existing_clears | now rewrite cancel_existing_flag].
  - unfold flag_tracks_flight.
    destruct (onMouseMove_frames h s) as (Hp & _ & _).
    rewrite Hp. intros _.
    assert (isTransitioning (onMouseMove h s) = isTransitioning s) as ->; [| exact Hf].
    unfold onMouseMove.
    destruct (hitboxIntersects h); [| reflexivity].
    destruct (orbitIntersects h); [| reflexivity].
    destruct (systemIntersects h) as [| i ?]; [reflexivity |].
    cbn. now destruct (nth_error (systemData s) (systemIndex (object i))).
  - unfold handleBackToSystem. apply run_callback_flag;
      [now apply cancel_existing_clears | now rewrite cancel_existing_flag].
Qed.

(** X17: From a state where the flag is right, it stays right: in the overview
    the "Back to System" button, disabled by [isTransitioning], is disabled
    exactly while a camera transition is in flight. *)
Theorem transition_flag_tracks_flight (s : State) (es : list Event) :
  one_live s -> flag_tracks_flight s -> flag_tracks_flight (run s es).
Proof.
  revert s. induction es as [| e es IH]; intros s H1 Hf; [exact Hf |].
  rewrite run_cons. apply IH; [now apply step_one_live | now apply step_flag].
Qed.

Lemma transition_flag_tracks_flight_witness :
  flag_tracks_flight
    (run SolarSamples.initial [Click SolarSamples.on_earth; Frame; MouseMove no_hits]).
Proof.
  assert (one_live SolarSamples.initial) as H by (left; split; reflexivity).
  assert (flag_tracks_flight SolarSamples.initial) as Hf.
  { intros _. split; [discriminate | intros N; now contradiction N]. }
  apply (transition_flag_tracks_flight SolarSamples.initial _ H Hf).
Defined.

(** *** The system handed to the star view *)

(** Every waiting transition heads for one of the loaded systems, and once
    the view is switched the selected system is one of them. *)
Definition targets_loaded (s : State) : Prop :=
  (forall h a sys, In (h, a) (pending s) -> kind a = AnimateTransition sys ->
                   In sys (systemData s)) /\
  (currentView s = exoplanet ->
   exists sys, selectedSystem s = Some sys /\ In sys (systemData s)).

Lemma run_callback_targets (a : Anim) (s : State) :
  pending s = [] ->
  (forall sys, kind a = AnimateTransition sys -> In sys (systemData s)) ->
  (currentView s = exoplanet ->
   exists sys, selectedSystem s = Some sys /\ In sys (systemData s)) ->
  targets_loaded (run_callback a s).
Proof.
  intros Hp Ha Hv. unfold targets_loaded, run_callback.
  destruct (kind a) as [| sys |] eqn:Hk.
  - destruct (progress a + 0.04 <? 1); cbn; rewrite ?Hp.
    + split; [| exact Hv]. intros h b sys [E | []] Hb.
      injection E as _ <-. cbn in Hb. congruence.
    + split; [intros h b sys [] | exact Hv].
  - destruct (progress a + 1 / 60 <? 1); cbn; rewrite ?Hp.
    + split; [| exact Hv]. intros h b sys' [E | []] Hb.
      injection E as _ <-. cbn in Hb. rewrite Hk in Hb. apply Ha. exact Hb.
    + split; [intros h b sys' [] |]. intros _. exists sys. split; [reflexivity |].
      now apply Ha.
  - destruct (progress a + 0.04 <? 1); cbn; rewrite ?Hp.
    + split; [| exact Hv]. intros h b sys [E | []] Hb.
      injection E as _ <-. cbn in Hb. congruence.
    + split; [intros h b sys [] | exact Hv].
Qed.

Lemma cancel_existing_data (s : State) :
  systemData (cancel_existing s) = systemData s.
Proof. unfold cancel_existing. now destruct (animationFrameRef s). Qed.

Lemma step_targets (s : State) (e : Event) :
  one_live s -> targets_loaded s -> targets_loaded (step s e).
Proof.
  intros H1 Hs. unfold step. destruct (currentView s) eqn:Hview; [| exact Hs].
  destruct Hs as (Ht & Hv).
  destruct e as [| h | h |].
  - destruct H1 as [(Hp & _) | (h & a & Hp & _)].
    + rewrite frame_idle by exact Hp. now split.
    + unfold frame. rewrite Hp. cbn [fold_left snd].
      apply run_callback_targets; [reflexivity | | ].
      * intros sys Hk. cbn. apply (Ht h a sys); [rewrite Hp; now left | exact Hk].
      * cbn. congruence.
  - unfold onClick.
    destruct (hitboxIntersects h) as [| i ?].
    2:{ unfold focusPlanet. apply run_callback_targets.
        - now apply cancel_existing_clears.
        - discriminate.
        - rewrite (proj1 (cancel_existing_view _)). cbn. congruence. }
    destruct (planetIntersects h) as [| i ?].
    2:{ unfold focusPlanet. apply run_callback_targets.
        - now apply cancel_existing_clears.
        - discriminate.
        - rewrite (proj1 (cancel_existing_view _)). cbn. congruence. }
    destruct (systemIntersects h) as [| i ?]; [split; [exact Ht | cbn; congruence] |].
    destruct (nth_error (systemData s) (systemIndex (object i))) as [sys |] eqn:Hd;
      [| split; [exact Ht | cbn; congruence]].
    destruct (nth_error (systemMarkers s) (systemIndex (object i))) as [m |];
      [| split; [exact Ht | cbn; congruence]].
    apply run_callback_targets.
    + now apply cancel_existing_clears.
    + intros sys' E. injection E as <-. rewrite cancel_existing_data. cbn.
      now apply nth_error_In with (systemIndex (object i)).
    + rewrite (proj1 (cancel_existing_view _)). cbn. congruence.
  - destruct (onMouseMove_frames h s) as (Hp & _ & Hv2 & _).
    unfold targets_loaded. rewrite Hp, Hv2.
    assert (systemData (onMouseMove h s) = systemData s) as ->.
    { unfold onMouseMove.
      destruct (hitboxIntersects h); [| reflexivity].
      destruct (orbitIntersects h); [| reflexivity].
      destruct (systemIntersects h) as [| i ?]; [reflexivity |].
      cbn. now destruct (nth_error (systemData s) (systemIndex (object i))). }
    split; [exact Ht | congruence].
  - unfold handleBackToSystem. apply run_callback_targets.
    + now apply cancel_existing_clears.
    + discriminate.
    + rewrite (proj1 (cancel_existing_view _)). cbn. congruence.
Qed.

Lemma step_keeps_data (s : State) (e : Event) :
  one_live s -> systemData (step s e) = systemData s.
Proof.
  intros H1. unfold step. destruct (currentView s); [| reflexivity].
  destruct e as [| h | h |].
  - apply (frame_keeps s H1).
  - unfold onClick.
    destruct (hitboxIntersects h) as [| i ?].
    2:{ unfold focusPlanet. rewrite (proj1 (proj2 (run_callback_keeps _ _))).
        now rewrite cancel_existing_data. }
    destruct (planetIntersects h) as [| i ?].
    2:{ unfold focusPlanet. rewrite (proj1 (proj2 (run_callback_keeps _ _))).
        now rewrite cancel_existing_data. }
    destruct (systemIntersects h) as [| i ?]; [reflexivity |].
    destruct (nth_error (systemData s) (systemIndex (object i))) as [sys |]; [| reflexivity].
    destruct (nth_error (systemMarkers s) (systemIndex (object i))) as [m |]; [| reflexivity].
    rewrite (proj1 (proj2 (run_callback_keeps _ _))). now rewrite cancel_existing_data.
  - unfold onMouseMove.
    destruct (hitboxIntersects h); [| reflexivity].
    destruct (orbitIntersects h); [| reflexivity].
    destruct (systemIntersects h) as [| i ?]; [reflexivity |].
    cbn. now destruct (nth_error (systemData s) (systemIndex (object i))).
  - unfold handleBackToSystem. rewrite (proj1 (proj2 (run_callback_keeps _ _))).
    now rewrite cancel_existing_data.
Qed.

(** X18: Starting in the overview with nothing in flight, whatever the events:
    if the view has been switched, the system selected for the star view is
    one of the systems the overview was given. *)
Theorem selected_system_is_loaded (s : State) (es : list Event) :
  pending s = [] -> animationFrameRef s = None -> currentView s = solar ->
  systemData (run s es) = systemData s /\
  (currentView (run s es) = exoplanet ->
   exists sys, selectedSystem (run s es) = Some sys /\ In sys (systemData s)).
Proof.
  intros Hp Hr Hv.
  assert (one_live s) as H1 by (left; now split).
  assert (targets_loaded s) as Ht.
  { split; [rewrite Hp; intros h a sys [] | congruence]. }
  clear Hp Hr Hv. revert s H1 Ht.
  induction es as [| e es IH]; intros s H1 Ht.
  - split; [reflexivity | apply Ht].
  - rewrite run_cons.
    destruct (IH (step s e) (step_one_live s e H1) (step_targets s e H1 Ht)) as (D & V).
    rewrite (step_keeps_data s e H1) in D, V. now split.
Qed.

Lemma selected_system_is_loaded_witness :
  systemData (run SolarSamples.initial
                (Click SolarSamples.on_marker :: repeat Frame 59))
  = systemData SolarSamples.initial.
Proof.
  apply (selected_system_is_loaded SolarSamples.initial _ eq_refl eq_refl eq_refl).
Defined.

End SolarCameraMore.

(** ** The star view: back to the system, hover labels *)

Module StarBackFacts.

Import Floats JSFloat StarBack.
Local Open Scope float_scope.
Set Warnings "-inexact-float".








End StarBackFacts.

Module StarHoverFacts.

Import StarHover.

Lemma set_label_length (m : nat) (v : bool) (l : list bool) :
  length (set_label m v l) = length l.
Proof.
  revert m. induction l as [| b t IH]; intros [| k]; simpl; try reflexivity.
  now rewrite IH.
Qed.

Lemma set_label_nth (m : nat) (v : bool) (l : list bool) (j : nat) :
  nth_error (set_label m v l) j
  = if Nat.eqb m j && Nat.ltb m (length l) then Some v else nth_error l j.
Proof.
  revert m j. induction l as [| b t IH]; intros m j; simpl.
  - destruct m; simpl; now rewrite andb_false_r.
  - destruct m as [| k], j as [| j]; simpl; try reflexivity.
    rewrite IH. reflexivity.
Qed.

(** The label shown is that of the hovered planet, and no other; a hovered
    planet comes with the pointer cursor. *)
Definition labels_match (s : State) : Prop :=
  (forall i, nth_error (labels s) i = Some true <-> hoveredPlanet s = Some i) /\
  (hoveredPlanet s <> None -> cursor s = SolarSystemRenderer.pointer).

Lemma hovered_in_range (s : State) (h : nat) :
  labels_match s -> hoveredPlanet s = Some h -> Nat.ltb h (length (labels s)) = true.
Proof.
  intros (Hm & _) Hh. apply Nat.ltb_lt, nth_error_Some.
  rewrite (proj2 (Hm h) Hh). discriminate.
Qed.

Lemma hover_keeps_match (intersects : list nat) (star : bool) (s : State) :
  (forall p, hd_error intersects = Some p -> (p < length (labels s))%nat) ->
  labels_match s ->
  let s' := hover intersects star s in
  labels_match s' /\
  length (labels s') = length (labels s) /\
  (cursor s' = SolarSystemRenderer.pointer <-> hoveredPlanet s' <> None) /\
  hoveredPlanet s' = hd_error intersects /\
  starLabel s' = star.
Proof.
  intros Hin Hm s'. subst s'. pose proof Hm as (Hl & Hc). unfold hover, labels_match.
  destruct intersects as [| p rest]; cbn [hd_error] in *.
  - destruct (hoveredPlanet s) as [prev |] eqn:Hh; cbn.
    + pose proof (hovered_in_range s prev Hm Hh) as Hlt.
      split; [split; [intros i | intros N; now contradiction N]
             | split; [apply set_label_length | split; [| now split]]].
      * rewrite set_label_nth.
        destruct (Nat.eqb_spec prev i) as [<- | N]; cbn [andb].
        -- rewrite Hlt. split; discriminate.
        -- rewrite (Hl i). split; [intros E; injection E; contradiction | discriminate].
      * split; [discriminate | intros N; now contradiction N].
    + split; [split; [intros i | intros N; now contradiction N]
             | split; [reflexivity | split; [| now split]]].
      * rewrite (Hl i). split; discriminate.
      * split; [discriminate | intros N; now contradiction N].
  - specialize (Hin p eq_refl). apply Nat.ltb_lt in Hin.
    destruct (hoveredPlanet s) as [h |] eqn:Hh.
    + pose proof (hovered_in_range s h Hm Hh) as Hlt.
      destruct (Nat.eqb_spec h p) as [-> | N]; cbn.
      * rewrite Hh.
        split; [split; [intros i; apply (Hl i) | intros _; apply Hc; discriminate]
               | split; [reflexivity | split; [| now split]]].
        split; [intros _; discriminate | intros _; apply Hc; discriminate].
      * split; [split; [intros i | now intros _]
               | split; [now rewrite !set_label_length | split; [| now split]]].
        -- rewrite set_label_nth, set_label_length, Hin, andb_true_r.
           destruct (Nat.eqb_spec p i) as [<- | Np]; [now split |].
           rewrite set_label_nth.
           destruct (Nat.eqb_spec h i) as [<- | Nh]; cbn [andb].
           ++ rewrite Hlt. split; [discriminate | intros E; injection E; contradiction].
           ++ rewrite (Hl i). split; intros E; injection E; contradiction.
        -- split; [intros _; discriminate | now intros _].
    + cbn.
      split; [split; [intros i | now intros _]
             | split; [apply set_label_length | split; [| now split]]].
      * rewrite set_label_nth, Hin, andb_true_r.
        destruct (Nat.eqb_spec p i) as [<- | Np]; [now split |].
        rewrite (Hl i). split; [discriminate | intros E; injection E; contradiction].
      * split; [intros _; discriminate | now intros _].
Qed.

Lemma hover_run_snoc (s : State) (passes : list (list nat * bool)) (pass : list nat * bool) :
  run s (passes ++ [pass]) = hover (fst pass) (snd pass) (run s passes).
Proof. unfold run. now rewrite fold_left_app. Qed.

(** X20: From the scene as built, whatever passes over the planets the pointer
    makes: exactly the label of the planet under the pointer is visible (so
    at most one label at a time), no label is added or lost, and once a
    pass has run the cursor is the pointer exactly while a planet is
    hovered, which is the planet nearest under the pointer on the last
    pass. *)
Theorem one_planet_label_at_a_time (planets : nat) (c : SolarSystemRenderer.Cursor)
  (passes : list (list nat * bool)) :
  Forall (fun pass => forall p, hd_error (fst pass) = Some p -> (p < planets)%nat) passes ->
  let s := run (initial planets c) passes in
  (forall i, nth_error (labels s) i = Some true <-> hoveredPlanet s = Some i) /\
  length (labels s) = planets /\
  (forall i j, nth_error (labels s) i = Some true ->
               nth_error (labels s) j = Some true -> i = j) /\
  (forall pass, last passes pass = pass -> passes <> [] ->
     hoveredPlanet s = hd_error (fst pass) /\
     (cursor s = SolarSystemRenderer.pointer <-> hoveredPlanet s <> None)).
Proof.
  intros Hall s.
  assert (labels_match s /\ length (labels s) = planets /\
          (forall pass, last passes pass = pass -> passes <> [] ->
             hoveredPlanet s = hd_error (fst pass) /\
             (cursor s = SolarSystemRenderer.pointer <-> hoveredPlanet s <> None)))
    as (Hm & Hlen & Hlast).
  { subst s. induction passes as [| pass rest IH] using rev_ind.
    - cbn. split; [| split; [apply repeat_length | intros pass _ N; now contradiction N]].
      split; [| intros N; now contradiction N].
      intros i. split; [| discriminate].
      intros E. apply nth_error_In, repeat_spec in E. discriminate.
    - apply Forall_app in Hall. destruct Hall as (Hrest & Hpass).
      destruct (IH Hrest) as (Hm & Hl & _).
      rewrite hover_run_snoc.
      destruct (hover_keeps_match (fst pass) (snd pass) (run (initial planets c) rest))
        as (Hm' & Hl' & Hc' & Hh' & _); [| exact Hm |].
      { rewrite Hl. now inversion Hpass. }
      split; [exact Hm' | split; [congruence |]].
      intros pass' Hlast _. rewrite last_last in Hlast. subst pass'. now split. }
  split; [apply Hm | split; [exact Hlen | split; [| exact Hlast]]].
  intros i j Hi Hj. apply (proj1 Hm) in Hi, Hj. congruence.
Qed.

Lemma one_planet_label_at_a_time_witness :
  length (labels (run (initial 3 SolarSystemRenderer.default)
                    [([1%nat], false); ([], true); ([2%nat; 0%nat], false)])) = 3%nat.
Proof.
  assert (Forall (fun pass : list nat * bool =>
                    forall p, hd_error (fst pass) = Some p -> (p < 3)%nat)
                 [([1%nat], false); ([], true); ([2%nat; 0%nat], false)]) as H.
  { apply Forall_forall. intros pass [<- | [<- | [<- | []]]] p E; cbn in E;
      try discriminate; injection E as <-; lia. }
  pose proof (one_planet_label_at_a_time 3 SolarSystemRenderer.default _ H) as T.
  cbv zeta in T. exact (proj1 (proj2 T)).
Defined.

End StarHoverFacts.

(** ** SystemNavigator: reading the planet table *)

Module CsvLoaderFacts.

Import Stdlib.Strings.Ascii JSReal CsvLoader.
Local Open Scope string_scope.





Section Parse.

Variable parseFloat : string -> number.

Lemma number_cell_not_zero (row : list string) (index : option nat) :
  number_cell parseFloat row index <> Some 0%R.
Proof.
  unfold number_cell. destruct (cell row index) as [c |]; [| discriminate].
  destruct (parseFloat c) as [r |]; [| discriminate].
  destruct (Req_dec_T r 0) as [E | N]; [discriminate |].
  intros H. injection H. exact N.
Qed.

End Parse.

(** X21: Every planet that [loadData] keeps has a name and a host name that are
    not empty, and no numeric field equal to 0 (a cell that parses to 0,
    like one that does not parse, is stored as undefined); it is the row of
    a kept line after the header line. At most one planet per such line is
    kept, and none when there is no line after the header. *)
Theorem loaded_planets_are_named (parseFloat : string -> number) (text : string) :
  let cols := colIndices (split comma (hd EmptyString (lines text))) in
  Forall (fun p =>
            StarScene.pl_name p <> EmptyString /\
            StarScene.hostname p <> EmptyString /\
            StarScene.pl_orbsmax p <> Some 0%R /\
            StarScene.pl_orbeccen p <> Some 0%R /\
            StarScene.pl_orbincl p <> Some 0%R /\
            StarScene.pl_orblper p <> Some 0%R /\
            StarScene.pl_rade p <> Some 0%R /\
            StarScene.pl_bmasse p <> Some 0%R /\
            exists line, In line (tl (lines text)) /\ p = parse_row parseFloat cols line)
         (loadPlanets parseFloat text)
  /\ (length (loadPlanets parseFloat text) <= length (lines text) - 1)%nat
  /\ ((length (lines text) <= 1)%nat -> loadPlanets parseFloat text = []).
Proof.
  intros cols. subst cols. unfold loadPlanets, planets_of_lines.
  destruct (lines text) as [| header [| row rows]]; cbn [hd tl length].
  - split; [constructor | split; [apply Nat.le_refl | reflexivity]].
  - split; [constructor | split; [apply Nat.le_0_l | reflexivity]].
  - split; [| split; [| lia]].
    + apply Forall_forall. intros p Hp. apply filter_In in Hp.
      destruct Hp as (Hin & Hn). apply in_map_iff in Hin.
      destruct Hin as (line & <- & Hline).
      unfold named in Hn. apply andb_prop in Hn. destruct Hn as (N1 & N2).
      apply negb_true_iff in N1, N2. apply String.eqb_neq in N1, N2.
      repeat split; try assumption; try apply number_cell_not_zero.
      now exists line.
    + pose proof (filter_length_le named
                    (map (parse_row parseFloat
                            (colIndices (split comma header))) (row :: rows))) as L.
      rewrite length_map in L. cbn [length] in L. lia.
Qed.

(** X22: When no header cell is exactly [pl_name], or none is exactly
    [hostname], no planet is loaded. This is what happens to a table with
    carriage returns at the line ends whose last column is one of the
    two. *)
Theorem unfound_name_column_loads_nothing (parseFloat : string -> number) (text : string) :
  let headers := split comma (hd EmptyString (lines text)) in
  indexOf headers "pl_name" = None \/ indexOf headers "hostname" = None ->
  loadPlanets parseFloat text = [].
Proof.
  intros headers H. unfold loadPlanets, planets_of_lines.
  destruct (lines text) as [| header [| row rows]]; [reflexivity | reflexivity |].
  cbn [hd] in headers. fold headers.
  set (rs := row :: rows). clearbody rs.
  induction rs as [| r t IH]; [reflexivity |].
  cbn [map filter]. rewrite IH.
  assert (named (parse_row parseFloat (colIndices headers) r) = false) as ->; [| reflexivity].
  unfold named, parse_row, colIndices. cbn.
  destruct H as [H | H]; rewrite H; cbn; [reflexivity | apply andb_false_r].
Qed.

Lemma unfound_name_column_loads_nothing_witness :
  loadPlanets (fun _ => NaN)
    (String.concat (String newline EmptyString)
       ["pl_name,hostname" ++ String "013" EmptyString;
        "Kepler-22 b,Kepler-22" ++ String "013" EmptyString; ""])
  = [].
Proof.
  apply (unfound_name_column_loads_nothing (fun _ => NaN)).
  right. reflexivity.
Defined.



End CsvLoaderFacts.

(** ** The upload page: choosing a file *)

Module UploadPageFacts.

Import UploadPage.

(** X24: Whatever is selected or dropped, in whatever order, the file held for
    upload has passed the test (its type is [text/csv] or its name ends in
    [.csv]), and an error is shown only for a refused file. A refused
    selection empties the slot; a refused drop leaves in it what was
    there. *)
Theorem held_file_is_csv (events : list Event) :
  let s := fold_left step events initial in
  (forall f, file s = Some f -> refused f = false) /\
  (forall f s0, refused f = true ->
     file (handleFileChange (Some f) s0) = None /\
     file (handleDrop (Some f) s0) = file s0 /\
     error (handleFileChange (Some f) s0) <> None /\
     error (handleDrop (Some f) s0) <> None) /\
  (forall f s0, refused f = false ->
     handleFileChange (Some f) s0 = mkState (Some f) None /\
     handleDrop (Some f) s0 = mkState (Some f) None).
Proof.
  cbv zeta. split; [| split].
  - assert (forall s0, (forall f, file s0 = Some f -> refused f = false) ->
              forall f, file (fold_left step events s0) = Some f -> refused f = false) as H.
    { induction events as [| e es IH]; intros s0 H0; [exact H0 |].
      cbn [fold_left]. apply IH. intros f.
      destruct e as [[g |] | [g |]]; cbn; try apply H0;
        destruct (refused g) eqn:E; cbn; try apply H0; try discriminate;
        intros Hf; injection Hf as <-; exact E. }
    apply H. discriminate.
  - intros f s0 Hr. cbn. rewrite Hr. cbn. repeat split; discriminate.
  - intros f s0 Hr. cbn. rewrite Hr. now split.
Qed.

End UploadPageFacts.
